(** * micro_agent_push.py: a shallow embedding and its checked properties

    The program appends a generated line to a file of a git working tree,
    commits it, optionally pushes, and waits; it repeats until SIGINT.

    Conventions of the embedding.
    - A Python [str] is a list of Unicode code points ([N]).
    - Python floats are read as exact rationals ([Q]); the integer interval
      is a [Z].
    - The outside world (git, the file system, the clocks, the random
      generator, the arrival of SIGINT) is an explicit environment of
      recorded outcomes; the program is a function of it.
    - [print] is an event of the trace and cannot fail.
    - Time is a rational clock that advances while the process sleeps and
      while a cycle works; the stop flag read at clock [c] is set when
      SIGINT arrived at or before [c].
    - The message the SIGINT handler prints is not part of the trace.
    - git commands do not touch the contents of the target file.
    - [argparse] and [str.format] are modelled as CPython 3.11 has them.
      Library behaviour outside the fragment modelled here ([str.format]
      conversions, format specs and attribute access, [-h], the bare
      [--] separator, [int()] on digits of other scripts, ...) is
      reported as beyond the model ([FBeyond], [ParseBeyond],
      [Beyond OutOfFragment]), never guessed. *)

From Stdlib Require Import List String Ascii Bool Arith NArith ZArith QArith.
From Stdlib Require Import Qminmax Qround Lia Lqa.
Import ListNotations.

(* ================================================================== *)
(** ** Python strings                                                  *)
(* ================================================================== *)

Module PyStr.

Definition str := list N.

(** An ASCII literal as a [str]. *)
Definition lit (s : string) : str := map N_of_ascii (list_ascii_of_string s).

Definition NL : N := 10%N.
Definition SP : N := 32%N.
(** U+2014, the dash of the default templates and of the commit message. *)
Definition EM_DASH : N := 8212%N.

Fixpoint str_eqb (a b : str) : bool :=
  match a, b with
  | [], [] => true
  | x :: a', y :: b' => N.eqb x y && str_eqb a' b'
  | _, _ => false
  end.

(** [s.startswith(p)] *)
Fixpoint startswith (s p : str) : bool :=
  match p, s with
  | [], _ => true
  | y :: p', x :: s' => N.eqb x y && startswith s' p'
  | _ :: _, [] => false
  end.

(** [s.endswith(p)] *)
Definition endswith (s p : str) : bool := startswith (rev s) (rev p).

(** Truth value of a string: non-empty. *)
Definition nonempty (s : str) : bool :=
  match s with [] => false | _ => true end.

(** [c.isspace()] for one code point (the table of CPython's
    [_PyUnicode_IsWhitespace]). *)
Definition isspace (c : N) : bool :=
  ((9 <=? c) && (c <=? 13) || (28 <=? c) && (c <=? 32)
   || (c =? 133) || (c =? 160) || (c =? 5760)
   || (8192 <=? c) && (c <=? 8202)
   || (c =? 8232) || (c =? 8233) || (c =? 8239) || (c =? 8287)
   || (c =? 12288))%N.

Fixpoint dropwhile (p : N -> bool) (s : str) : str :=
  match s with
  | [] => []
  | c :: s' => if p c then dropwhile p s' else s
  end.

Fixpoint takewhile (p : N -> bool) (s : str) : str :=
  match s with
  | [] => []
  | c :: s' => if p c then c :: takewhile p s' else []
  end.

Definition lstrip (s : str) : str := dropwhile isspace s.
Definition rstrip (s : str) : str := rev (dropwhile isspace (rev s)).
(** [s.strip()] *)
Definition strip (s : str) : str := rstrip (lstrip s).

(** [sep.join(parts)] *)
Fixpoint join (sep : str) (parts : list str) : str :=
  match parts with
  | [] => []
  | [p] => p
  | p :: rest => p ++ sep ++ join sep rest
  end.

(** Number of newline characters a string starts with. *)
Definition lead (s : str) : nat := List.length (takewhile (N.eqb NL) s).

(** Number of newline characters a string ends in. *)
Definition trailing_newlines (s : str) : nat := lead (rev s).

Definition not_newline (c : N) : bool := negb (N.eqb c NL).

Definition isdigit (c : N) : bool := ((48 <=? c) && (c <=? 57))%N.
Definition isascii (c : N) : bool := (c <? 128)%N.

End PyStr.
Import PyStr.

(* ================================================================== *)
(** ** Exceptions and results                                          *)
(* ================================================================== *)

(** The exceptions the program meets.  [SystemExit] derives from
    [BaseException] only; the others derive from [Exception]. *)
Inductive exn : Type :=
| KeyError (key : str)
| IndexError
| ValueError
| UnicodeDecodeError
| OSError
| RuntimeError (cmd : list str)
| SystemExit (code : Z).

(** [isinstance(e, Exception)] *)
Definition is_Exception (e : exn) : bool :=
  match e with SystemExit _ => false | _ => true end.

(** [isinstance(e, RuntimeError)] *)
Definition is_RuntimeError (e : exn) : bool :=
  match e with RuntimeError _ => true | _ => false end.

(** Why a computation of the model gives no answer. *)
Inductive gap : Type := OutOfFuel | OutOfFragment.

(* ================================================================== *)
(** ** Timestamps                                                      *)
(* ================================================================== *)

Record datetime : Type := mkDatetime {
  year : nat; month : nat; day : nat;
  hour : nat; minute : nat; second : nat }.

Definition digit (n : nat) : N := (48 + N.of_nat (n mod 10))%N.
Definition two_digits (n : nat) : str := [digit (n / 10); digit n].
Definition four_digits (n : nat) : str :=
  [digit (n / 1000); digit (n / 100); digit (n / 10); digit n].

(** [d.strftime("%Y-%m-%dT%H:%M:%SZ")], for years of four digits. *)
Definition strftime_utc (d : datetime) : str :=
  four_digits (year d) ++ lit "-" ++ two_digits (month d) ++ lit "-"
  ++ two_digits (day d) ++ lit "T" ++ two_digits (hour d) ++ lit ":"
  ++ two_digits (minute d) ++ lit ":" ++ two_digits (second d) ++ lit "Z".

(** [d.isoformat(sep=" ", timespec="seconds")] *)
Definition isoformat_seconds (d : datetime) : str :=
  four_digits (year d) ++ lit "-" ++ two_digits (month d) ++ lit "-"
  ++ two_digits (day d) ++ lit " " ++ two_digits (hour d) ++ lit ":"
  ++ two_digits (minute d) ++ lit ":" ++ two_digits (second d).

(* ================================================================== *)
(** ** [templ.format(ts=ts)]                                           *)
(* ================================================================== *)

Inductive fres : Type :=
| FOk (s : str)
| FRaise (e : exn)
| FBeyond.

(** The scanner of [str.format], one character at a time. *)
Inductive fstate : Type :=
| InText                     (* literal text *)
| AfterOpen                  (* just read an unescaped '{' *)
| AfterClose                 (* just read an unescaped '}' *)
| InField (name_rev : str).  (* inside a replacement field *)

Definition LBRACE : N := 123%N.
Definition RBRACE : N := 125%N.
Definition LBRACKET : N := 91%N.
Definition COLON : N := 58%N.
Definition BANG : N := 33%N.
Definition DOT : N := 46%N.

(** The value of the replacement field [name] when the only argument is
    the keyword [ts].  Only the plain field [{ts}] is rendered; attribute
    and index access on [ts] are outside the fragment. *)
Definition resolve_field (name ts : str) : fres :=
  let first := takewhile (fun c => negb (N.eqb c DOT)) name in
  if forallb isdigit first then
    (* empty or numeric: a positional index, and there are no positionals *)
    if Nat.leb (List.length first) 9 then FRaise IndexError else FBeyond
  else if negb (forallb isascii first) then FBeyond
  else if str_eqb first (lit "ts") then
    if str_eqb name (lit "ts") then FOk ts else FBeyond
  else FRaise (KeyError first).

(** One character inside a replacement field. *)
Definition field_char (c : N) (name_rev out_rev ts : str)
  : fres + (fstate * str) :=
  if N.eqb c RBRACE then
    match resolve_field (rev name_rev) ts with
    | FOk v => inr (InText, rev v ++ out_rev)
    | r => inl r
    end
  else if N.eqb c LBRACE then inl (FRaise ValueError)
  else if N.eqb c LBRACKET || N.eqb c COLON || N.eqb c BANG then inl FBeyond
  else inr (InField (c :: name_rev), out_rev).

Definition format_step (st : fstate) (c : N) (out_rev ts : str)
  : fres + (fstate * str) :=
  match st with
  | InText =>
      if N.eqb c LBRACE then inr (AfterOpen, out_rev)
      else if N.eqb c RBRACE then inr (AfterClose, out_rev)
      else inr (InText, c :: out_rev)
  | AfterOpen =>
      if N.eqb c LBRACE then inr (InText, LBRACE :: out_rev)
      else field_char c [] out_rev ts
  | AfterClose =>
      if N.eqb c RBRACE then inr (InText, RBRACE :: out_rev)
      else inl (FRaise ValueError)
  | InField name_rev => field_char c name_rev out_rev ts
  end.

Fixpoint format_go (st : fstate) (out_rev : str) (ts : str) (s : str) : fres :=
  match s with
  | [] =>
      match st with
      | InText => FOk (rev out_rev)
      | _ => FRaise ValueError
      end
  | c :: s' =>
      match format_step st c out_rev ts with
      | inl r => r
      | inr (st', out') => format_go st' out' ts s'
      end
  end.

Definition format (templ ts : str) : fres := format_go InText [] ts templ.

(* ================================================================== *)
(** ** The entry generator                                             *)
(* ================================================================== *)

Definition DEFAULT_TEMPLATES : list str :=
  [ lit "TODO: Add a short example for the API (created {ts}).";
    lit "NOTE: Quick optimization idea documented " ++ [EM_DASH]
      ++ lit " revisit later ({ts}).";
    lit "DOC: Minor README tweak suggested ({ts}).";
    lit "TASK: Write unit test for recently added util function ({ts}).";
    lit "LOG: Small refactor done locally; details in code comments ({ts}).";
    lit "CHORE: Update dependency checklist in docs ({ts}).";
    lit "IDEA: Possible feature " ++ [EM_DASH]
      ++ lit " add bulk import endpoint ({ts})." ].

(** [random.choice(pool)] with the generator's draw [pick]. *)
Definition random_choice (pool : list str) (pick : nat) : exn + str :=
  match pool with
  | [] => inl IndexError
  | _ => match nth_error pool (pick mod List.length pool) with
         | Some t => inr t
         | None => inl IndexError
         end
  end.

(** The text in front of the line: the prefix when it is given and
    non-empty, the bullet otherwise. *)
Definition entry_head (prefix : option str) : str :=
  match prefix with
  | Some p => if nonempty p then p else lit "-"
  | None => lit "-"
  end.

Definition generate_entry (template_pool : list str) (prefix : option str)
    (utcnow : datetime) (pick : nat) : fres :=
  let ts := strftime_utc utcnow in
  match random_choice template_pool pick with
  | inl e => FRaise e
  | inr templ =>
      match format templ ts with
      | FOk line => FOk (entry_head prefix ++ [SP] ++ line ++ [NL])
      | r => r
      end
  end.

(** Text without braces. *)
Definition plain_text (s : str) : bool :=
  forallb (fun c => negb (N.eqb c LBRACE) && negb (N.eqb c RBRACE)) s.

(** A character of a keyword field name: ASCII, and none of those that
    start attribute or index access, a conversion or a format spec. *)
Definition name_char (c : N) : bool :=
  isascii c
  && negb (N.eqb c LBRACE || N.eqb c RBRACE || N.eqb c LBRACKET
           || N.eqb c COLON || N.eqb c BANG || N.eqb c DOT).


(** What [append_entry] writes for [entry]. *)
Definition append_data (entry : str) : str :=
  entry ++ (if endswith entry [NL] then [] else [NL]).

(* ================================================================== *)
(** ** The command line ([argparse])                                   *)
(* ================================================================== *)

(** A value [args.push] can hold: the default [True], or the string a
    [store] action put there. *)
Inductive pyval : Type :=
| PyBool (b : bool)
| PyStr (s : str).

(** [bool(v)] *)
Definition truthy (v : pyval) : bool :=
  match v with
  | PyBool b => b
  | PyStr s => nonempty s
  end.

Record Namespace : Type := mkNamespace {
  repo : str;
  file : str;
  interval : Z;
  push : pyval;
  branch : option str;
  message : str;
  randomize : bool;
  templates_file : option str;
  prefix : option str;
  no_verify : bool }.

(** [setattr(namespace, <field>, v)] *)
Definition set_repo (v : str) (ns : Namespace) : Namespace :=
  {| repo := v; file := file ns; interval := interval ns; push := push ns;
     branch := branch ns; message := message ns; randomize := randomize ns;
     templates_file := templates_file ns; prefix := prefix ns;
     no_verify := no_verify ns |}.
Definition set_file (v : str) (ns : Namespace) : Namespace :=
  {| repo := repo ns; file := v; interval := interval ns; push := push ns;
     branch := branch ns; message := message ns; randomize := randomize ns;
     templates_file := templates_file ns; prefix := prefix ns;
     no_verify := no_verify ns |}.
Definition set_interval (v : Z) (ns : Namespace) : Namespace :=
  {| repo := repo ns; file := file ns; interval := v; push := push ns;
     branch := branch ns; message := message ns; randomize := randomize ns;
     templates_file := templates_file ns; prefix := prefix ns;
     no_verify := no_verify ns |}.
Definition set_push (v : pyval) (ns : Namespace) : Namespace :=
  {| repo := repo ns; file := file ns; interval := interval ns; push := v;
     branch := branch ns; message := message ns; randomize := randomize ns;
     templates_file := templates_file ns; prefix := prefix ns;
     no_verify := no_verify ns |}.
Definition set_branch (v : option str) (ns : Namespace) : Namespace :=
  {| repo := repo ns; file := file ns; interval := interval ns;
     push := push ns; branch := v; message := message ns;
     randomize := randomize ns; templates_file := templates_file ns;
     prefix := prefix ns; no_verify := no_verify ns |}.
Definition set_message (v : str) (ns : Namespace) : Namespace :=
  {| repo := repo ns; file := file ns; interval := interval ns;
     push := push ns; branch := branch ns; message := v;
     randomize := randomize ns; templates_file := templates_file ns;
     prefix := prefix ns; no_verify := no_verify ns |}.
Definition set_randomize (v : bool) (ns : Namespace) : Namespace :=
  {| repo := repo ns; file := file ns; interval := interval ns;
     push := push ns; branch := branch ns; message := message ns;
     randomize := v; templates_file := templates_file ns;
     prefix := prefix ns; no_verify := no_verify ns |}.
Definition set_templates_file (v : option str) (ns : Namespace) : Namespace :=
  {| repo := repo ns; file := file ns; interval := interval ns;
     push := push ns; branch := branch ns; message := message ns;
     randomize := randomize ns; templates_file := v; prefix := prefix ns;
     no_verify := no_verify ns |}.
Definition set_prefix (v : option str) (ns : Namespace) : Namespace :=
  {| repo := repo ns; file := file ns; interval := interval ns;
     push := push ns; branch := branch ns; message := message ns;
     randomize := randomize ns; templates_file := templates_file ns;
     prefix := v; no_verify := no_verify ns |}.
Definition set_no_verify (v : bool) (ns : Namespace) : Namespace :=
  {| repo := repo ns; file := file ns; interval := interval ns;
     push := push ns; branch := branch ns; message := message ns;
     randomize := randomize ns; templates_file := templates_file ns;
     prefix := prefix ns; no_verify := v |}.

(** The defaults of the [add_argument] calls. *)
Definition defaults : Namespace :=
  {| repo := lit "."; file := lit "TODO.md"; interval := 3600;
     push := PyBool true; branch := None;
     message := lit "chore: micro update"; randomize := false;
     templates_file := None; prefix := None; no_verify := false |}.

Inductive dest : Type :=
| DHelp | DRepo | DFile | DInterval | DPush | DBranch | DMessage
| DRandomize | DTemplatesFile | DPrefix | DNoVerify.

Inductive action_kind : Type := Store | StoreTrue | Help.

(** [action=] of each argument ([store] unless said otherwise). *)
Definition kind_of (d : dest) : action_kind :=
  match d with
  | DHelp => Help
  | DRandomize | DNoVerify => StoreTrue
  | _ => Store
  end.

(** The parser's option strings, in registration order.  The push
    argument registers the single option string ["--push/--no-push"]. *)
Definition option_strings : list (str * dest) :=
  [ (lit "-h", DHelp); (lit "--help", DHelp);
    (lit "--repo", DRepo); (lit "-r", DRepo);
    (lit "--file", DFile); (lit "-f", DFile);
    (lit "--interval", DInterval); (lit "-i", DInterval);
    (lit "--push/--no-push", DPush);
    (lit "--branch", DBranch); (lit "-b", DBranch);
    (lit "--message", DMessage); (lit "-m", DMessage);
    (lit "--randomize", DRandomize);
    (lit "--templates-file", DTemplatesFile);
    (lit "--prefix", DPrefix);
    (lit "--no-verify", DNoVerify) ].

Definition DASH : N := 45%N.
Definition EQUALS : N := 61%N.

Fixpoint lookup_option (table : list (str * dest)) (s : str) : option dest :=
  match table with
  | [] => None
  | (o, d) :: rest => if str_eqb o s then Some d else lookup_option rest s
  end.

(** [s.split('=', 1)] when ['=' in s]. *)
Fixpoint split_equals (s : str) : option (str * str) :=
  match s with
  | [] => None
  | c :: s' =>
      if N.eqb c EQUALS then Some ([], s')
      else match split_equals s' with
           | Some (a, b) => Some (c :: a, b)
           | None => None
           end
  end.

Inductive usage_error : Type :=
| Ambiguous (option : str)
| ExpectedOneArgument (d : dest)
| IgnoredExplicitArgument (d : dest)
| InvalidInt (value : str)
| Unrecognized (extras : list str).

(** How the first pass reads one argument string: an argument (['A']) or
    an option (['O']), known or not, with its [=value] part. *)
Inductive token : Type :=
| TArg
| TOpt (d : option dest) (explicit : option str).

Inductive classified : Type :=
| CTok (t : token)
| CError (e : usage_error)
| CBeyond.

(** [_get_option_tuples]: the interpretations of an argument string that
    is no option string itself. *)
Definition get_option_tuples (s : str) : list (dest * option str) :=
  match s with
  | c0 :: c1 :: _ =>
      if N.eqb c1 DASH then
        (* two prefix characters: abbreviations, split at '=' only *)
        let (option_prefix, explicit) :=
          match split_equals s with
          | Some (a, b) => (a, Some b)
          | None => (s, None)
          end in
        flat_map (fun od : str * dest =>
                    if startswith (fst od) option_prefix
                    then [(snd od, explicit)] else [])
                 option_strings
      else
        (* one prefix character: a short option with its value attached *)
        let short_option_prefix := [c0; c1] in
        let short_explicit := skipn 2 s in
        flat_map (fun od : str * dest =>
                    if str_eqb (fst od) short_option_prefix
                    then [(snd od, Some short_explicit)]
                    else if startswith (fst od) s
                    then [(snd od, None)] else [])
                 option_strings
  | _ => []
  end.

(** The parser's [^-\d+$|^-\d*\.\d+$] on an ASCII string. *)
Definition negative_number_like (s : str) : bool :=
  match s with
  | c :: body =>
      let body := match rev body with
                  | n :: b => if N.eqb n NL then rev b else body
                  | [] => body
                  end in
      let int_part := takewhile isdigit body in
      let rest := skipn (List.length int_part) body in
      N.eqb c DASH &&
      ((nonempty int_part && negb (nonempty rest))
       || match rest with
          | d :: frac => N.eqb d DOT && nonempty frac && forallb isdigit frac
          | [] => false
          end)
  | [] => false
  end.

(** [_parse_optional], with the rule of [_parse_known_args] for [--]. *)
Definition classify (s : str) : classified :=
  match s with
  | [] => CTok TArg
  | c0 :: tl =>
      if negb (N.eqb c0 DASH) then CTok TArg
      else if str_eqb s (lit "--") then CBeyond
      else match lookup_option option_strings s with
      | Some d => CTok (TOpt (Some d) None)
      | None =>
          if negb (nonempty tl) then CTok TArg
          else
            let by_equals :=
              match split_equals s with
              | Some (o, v) =>
                  match lookup_option option_strings o with
                  | Some d => Some (d, v)
                  | None => None
                  end
              | None => None
              end in
            match by_equals with
            | Some (d, v) => CTok (TOpt (Some d) (Some v))
            | None =>
                match get_option_tuples s with
                | _ :: _ :: _ => CError (Ambiguous s)
                | [(d, explicit)] => CTok (TOpt (Some d) explicit)
                | [] =>
                    if negb (forallb isascii s) then CBeyond
                    else if negative_number_like s then CTok TArg
                    else if existsb (N.eqb SP) s then CTok TArg
                    else CTok (TOpt None None)
                end
            end
      end
  end.

Inductive int_result : Type :=
| IntOk (z : Z)
| IntBad                    (* ValueError *)
| IntBeyond.

Fixpoint digits_value (acc : Z) (s : str) : Z :=
  match s with
  | [] => acc
  | c :: s' => digits_value (10 * acc + (Z.of_N c - 48)) s'
  end.

(** [int(s)] on strings of visible ASCII characters without ['_'];
    whitespace, underscores and other scripts' digits are outside the
    fragment. *)
Definition parse_int (s : str) : int_result :=
  if negb (forallb (fun c => (33 <=? c) && (c <=? 126) && negb (c =? 95))%N s)
  then IntBeyond
  else
    let (negative, body) :=
      match s with
      | c :: b => if N.eqb c DASH then (true, b)
                  else if N.eqb c 43%N then (false, b)
                  else (false, s)
      | [] => (false, s)
      end in
    if nonempty body && forallb isdigit body then
      let v := digits_value 0 body in
      IntOk (if negative then - v else v)
    else IntBad.

Inductive parse_result : Type :=
| Parsed (ns : Namespace)
| UsageError (e : usage_error)     (* [parser.error]: exit status 2 *)
| ParseBeyond.

(** A [store] action: [setattr(namespace, dest, value)] after the
    argument's [type] conversion. *)
Definition store (d : dest) (v : str) (ns : Namespace)
  : usage_error + option Namespace :=
  match d with
  | DRepo => inr (Some (set_repo v ns))
  | DFile => inr (Some (set_file v ns))
  | DInterval =>
      match parse_int v with
      | IntOk z => inr (Some (set_interval z ns))
      | IntBad => inl (InvalidInt v)
      | IntBeyond => inr None
      end
  | DPush => inr (Some (set_push (PyStr v) ns))
  | DBranch => inr (Some (set_branch (Some v) ns))
  | DMessage => inr (Some (set_message v ns))
  | DTemplatesFile => inr (Some (set_templates_file (Some v) ns))
  | DPrefix => inr (Some (set_prefix (Some v) ns))
  | DRandomize | DNoVerify | DHelp => inr None
  end.

(** A [store_true] action. *)
Definition store_true (d : dest) (ns : Namespace) : Namespace :=
  match d with
  | DRandomize => set_randomize true ns
  | DNoVerify => set_no_verify true ns
  | _ => ns
  end.

(** The first pass: every argument string classified, left to right. *)
Fixpoint classify_all (args : list str) : classified + list (str * token) :=
  match args with
  | [] => inr []
  | a :: rest =>
      match classify a with
      | CTok t =>
          match classify_all rest with
          | inr l => inr ((a, t) :: l)
          | inl bad => inl bad
          end
      | bad => inl bad
      end
  end.

(** The second pass: options consumed left to right.  The parser has no
    positional argument, so every argument string that is not the value
    of an option is left over, as is every unknown option. *)
Fixpoint consume (toks : list (str * token)) (ns : Namespace)
    (extras_rev : list str) : parse_result :=
  match toks with
  | [] =>
      match extras_rev with
      | [] => Parsed ns
      | _ => UsageError (Unrecognized (rev extras_rev))
      end
  | (a, TArg) :: rest => consume rest ns (a :: extras_rev)
  | (a, TOpt None _) :: rest => consume rest ns (a :: extras_rev)
  | (a, TOpt (Some d) explicit) :: rest =>
      match kind_of d with
      | Help => ParseBeyond
      | StoreTrue =>
          match explicit with
          | Some _ => UsageError (IgnoredExplicitArgument d)
          | None => consume rest (store_true d ns) extras_rev
          end
      | Store =>
          match explicit with
          | Some v =>
              match store d v ns with
              | inl e => UsageError e
              | inr None => ParseBeyond
              | inr (Some ns') => consume rest ns' extras_rev
              end
          | None =>
              match rest with
              | (v, TArg) :: rest' =>
                  match store d v ns with
                  | inl e => UsageError e
                  | inr None => ParseBeyond
                  | inr (Some ns') => consume rest' ns' extras_rev
                  end
              | _ => UsageError (ExpectedOneArgument d)
              end
          end
      end
  end.

(** [parser.parse_args()] on [sys.argv[1:]]. *)
Definition parse_args (args : list str) : parse_result :=
  match classify_all args with
  | inl (CError e) => UsageError e
  | inl _ => ParseBeyond
  | inr toks => consume toks defaults []
  end.

(* ================================================================== *)
(** ** The world: trace, clock, target file                            *)
(* ================================================================== *)

(** What the program prints. *)
Inductive report : Type :=
| Usage (e : usage_error)
| NotAGitRepository
| TemplatesWarning (path : str) (e : exn)
| Banner (ns : Namespace)
| Committed (now full_msg : str)
| PushedToRemote (now : str)
| PushFailed (now : str)
| NoCommitCreated
| ErrorInLoop (e : exn)
| ExitedCleanly.

Inductive event : Type :=
| Stdout (r : report)
| Stderr (r : report)
| Subprocess (args : list str)    (* [subprocess.run(args, cwd=repo)] *)
| Makedirs
| CreateFile (data : str)         (* target file opened with "w" *)
| AppendFile (data : str)         (* target file opened with "a" *)
| Poll (flag : bool)              (* a read of [stop_signal_received] *)
| Sleep (d : Q).

Record world : Type := mkWorld {
  clock : Q;
  target : option str;      (* contents of the target file, if it exists *)
  trace : list event }.

Inductive res (A : Type) : Type :=
| Ok (a : A) (w : world)
| Raise (e : exn) (w : world)
| Beyond (g : gap).
Arguments Ok {A} a w.
Arguments Raise {A} e w.
Arguments Beyond {A} g.

(** Computations over the world that may raise. *)
Definition M (A : Type) : Type := world -> res A.

Definition ret {A} (a : A) : M A := fun w => Ok a w.

Definition bind {A B} (c : M A) (k : A -> M B) : M B :=
  fun w => match c w with
           | Ok a w' => k a w'
           | Raise e w' => Raise e w'
           | Beyond g => Beyond g
           end.

Definition raise {A} (e : exn) : M A := fun w => Raise e w.

(** [try: c  except <handles>: handler] *)
Definition try_except {A} (c : M A) (handles : exn -> bool)
    (handler : exn -> M A) : M A :=
  fun w => match c w with
           | Raise e w' => if handles e then handler e w' else Raise e w'
           | r => r
           end.

Declare Scope py_scope.
Delimit Scope py_scope with py.
Notation "x <- c ;; k" := (bind c (fun x => k))
  (at level 61, c at next level, right associativity) : py_scope.
Notation "c ;;; k" := (bind c (fun _ => k))
  (at level 61, right associativity) : py_scope.
Local Open Scope py_scope.

(** The world after event [e]. *)
Definition record (e : event) (w : world) : world :=
  {| clock := clock w; target := target w; trace := trace w ++ [e] |}.

(** The world [d] seconds later. *)
Definition later (d : Q) (w : world) : world :=
  {| clock := clock w + d; target := target w; trace := trace w |}.

(** The world after [data] is appended to the target file, which is
    created when it does not exist. *)
Definition written (data : str) (w : world) : world :=
  {| clock := clock w;
     target := Some (match target w with
                     | Some old => old ++ data
                     | None => data
                     end);
     trace := trace w |}.

(** The world after the target file is created with [data] in it. *)
Definition created (data : str) (w : world) : world :=
  {| clock := clock w; target := Some data; trace := trace w |}.

Definition emit (e : event) : M unit := fun w => Ok tt (record e w).

Definition print (r : report) : M unit := emit (Stdout r).
Definition print_err (r : report) : M unit := emit (Stderr r).

Definition advance (d : Q) : M unit := fun w => Ok tt (later d w).

Definition lift_fres (r : fres) : M str :=
  match r with
  | FOk s => ret s
  | FRaise e => raise e
  | FBeyond => fun _ => Beyond OutOfFragment
  end.

(* ---------- Helpers ---------- *)

Record completed : Type := mkCompleted {
  returncode : Z;
  stdout : str }.

(** What [subprocess.run] did: the child ran and ended, or could not be
    started ([OSError]). *)
Inductive proc : Type :=
| Ran (c : completed)
| NotStarted.

Definition run_cmd (args : list str) (check : bool) (p : proc) : M completed :=
  emit (Subprocess args) ;;;
  match p with
  | NotStarted => raise OSError
  | Ran c =>
      if check && negb (returncode c =? 0)%Z
      then raise (RuntimeError args)
      else ret c
  end.

Definition is_git_repo (p : proc) : M bool :=
  try_except
    (res <- run_cmd [lit "git"; lit "rev-parse"; lit "--is-inside-work-tree"]
                    true p ;;
     ret (str_eqb (strip (stdout res)) (lit "true")))
    is_Exception
    (fun _ => ret false).

Definition append_entry (entry : str) (io_ok : bool) : M unit :=
  fun w =>
    if io_ok then
      let data := append_data entry in
      Ok tt (record (AppendFile data) (written data w))
    else Raise OSError w.

(** [l.insert(i, x)] for [0 <= i]. *)
Definition list_insert {A} (i : nat) (x : A) (l : list A) : list A :=
  firstn i l ++ x :: skipn i l.

Definition git_stage_and_commit (file_path message : str) (no_verify : bool)
    (p_add p_commit : proc) : M bool :=
  try_except
    (run_cmd [lit "git"; lit "add"; lit "--"; file_path] true p_add ;;;
     let commit_cmd := [lit "git"; lit "commit"; lit "-m"; message] in
     let commit_cmd :=
       if no_verify then list_insert 2 (lit "--no-verify") commit_cmd
       else commit_cmd in
     run_cmd commit_cmd true p_commit ;;;
     ret true)
    is_RuntimeError
    (fun _ => ret false).

Definition git_push (p : proc) : M bool :=
  try_except
    (run_cmd [lit "git"; lit "push"] true p ;;; ret true)
    is_RuntimeError
    (fun _ => ret false).

(* ================================================================== *)
(** ** The environment                                                 *)
(* ================================================================== *)

Inductive io_fault : Type :=
| CannotOpen               (* OSError *)
| CannotDecode.            (* UnicodeDecodeError *)

Definition exn_of_fault (f : io_fault) : exn :=
  match f with
  | CannotOpen => OSError
  | CannotDecode => UnicodeDecodeError
  end.

(** What reading the templates file gives: its decoded text, or a fault. *)
Inductive read_result : Type :=
| ReadText (text : str)
| ReadFails (f : io_fault).

(** What the outside world does during one cycle. *)
Record cycle_env : Type := mkCycleEnv {
  ce_work_ms : N;            (* time the work phase takes, in ms *)
  ce_draw : N;               (* the 53-bit draw behind [rng.random()] *)
  ce_pick : nat;             (* the draw behind [random.choice] *)
  ce_utc_entry : datetime;   (* [utcnow()] in [generate_entry] *)
  ce_utc_msg : datetime;     (* [utcnow()] for the commit message *)
  ce_now : datetime;         (* [now()] for the report *)
  ce_append_ok : bool;       (* the target file can be opened and written *)
  ce_add : proc;             (* git add *)
  ce_commit : proc;          (* git commit *)
  ce_push : proc }.          (* git push *)

Record env : Type := mkEnv {
  argv : list str;                (* [sys.argv[1:]] *)
  target0 : option str;           (* the target file before the start *)
  rev_parse : proc;               (* git rev-parse --is-inside-work-tree *)
  templates_read : read_result;
  makedirs_ok : bool;
  create_ok : bool;               (* the target file can be created *)
  checkout : proc;                (* git checkout <branch> *)
  checkout_b : proc;              (* git checkout -b <branch> *)
  sigint : option Q;              (* when SIGINT arrives, if it does *)
  cycles : nat -> cycle_env }.

(* ================================================================== *)
(** ** Timing: the stop flag, sleeping, delay                          *)
(* ================================================================== *)

Definition Qlt_bool (a b : Q) : bool := negb (Qle_bool b a).

(** Python's [max(a, b)] and [min(a, b)] on two numbers. *)
Definition py_max (a b : Q) : Q := if Qlt_bool a b then b else a.
Definition py_min (a b : Q) : Q := if Qlt_bool b a then b else a.

(** The flag the SIGINT handler sets, as the loop reads it. *)
Definition flag_at (sig : option Q) (c : Q) : bool :=
  match sig with
  | Some t => Qle_bool t c
  | None => false
  end.

Definition stop_signal_received (sig : option Q) : M bool :=
  fun w => let b := flag_at sig (clock w) in Ok b (record (Poll b) w).

(** [time.sleep(d)] *)
Definition sleep (d : Q) : M unit :=
  fun w => if Qlt_bool d 0 then Raise ValueError w
           else Ok tt (record (Sleep d) (later d w)).

(** [rng.random()]: a multiple of 2^-53 in [0, 1). *)
Definition random (draw : N) : Q :=
  Z.of_N (draw mod 2 ^ 53) # (2 ^ 53).

(** [rng.uniform(a, b)] *)
Definition uniform (a b : Q) (draw : N) : Q := a + (b - a) * random draw.

(** The delay of a cycle (lines 165-171). *)
Definition compute_delay (args : Namespace) (draw : N) : Q :=
  let base := inject_Z (interval args) in
  if randomize args then
    let jitter := base * (2 # 10) in
    let delay := base + uniform (- jitter) jitter draw in
    py_max 10 delay
  else base.

(** The wait of lines 194-197.  [fuel] bounds the iterations. *)
Fixpoint wait_loop (fuel : nat) (sig : option Q) (delay slept : Q) : M unit :=
  match fuel with
  | O => fun _ => Beyond OutOfFuel
  | S fuel' =>
      if Qlt_bool slept delay then
        stop <- stop_signal_received sig ;;
        if stop then ret tt
        else sleep (py_min 1 (delay - slept)) ;;;
             wait_loop fuel' sig delay (slept + 1)
      else ret tt
  end.

(** Iterations that suffice for [delay]: one per started second, and the
    final test. *)
Definition wait_fuel (delay : Q) : nat := S (Z.to_nat (Qceiling delay)).

Definition wait (sig : option Q) (delay : Q) : M unit :=
  wait_loop (wait_fuel delay) sig delay 0.

(** The backoff of lines 202-205, for [range(n)]. *)
Fixpoint backoff (n : nat) (sig : option Q) : M unit :=
  match n with
  | O => ret tt
  | S n' =>
      stop <- stop_signal_received sig ;;
      if stop then ret tt
      else sleep 1 ;;; backoff n' sig
  end.

(* ================================================================== *)
(** ** Startup                                                          *)
(* ================================================================== *)

Definition CR : N := 13%N.

(** Universal newlines: ["\r\n"] and ["\r"] read as ["\n"]. *)
Fixpoint translate_newlines (s : str) : str :=
  match s with
  | [] => []
  | c :: s' =>
      if N.eqb c CR then
        NL :: match s' with
              | c' :: s'' => if N.eqb c' NL then translate_newlines s''
                             else translate_newlines s'
              | [] => []
              end
      else c :: translate_newlines s'
  end.

(** The lines of a text, each with its newline. *)
Fixpoint split_lines (cur_rev : str) (s : str) : list str :=
  match s with
  | [] => match cur_rev with [] => [] | _ => [rev cur_rev] end
  | c :: s' =>
      if N.eqb c NL then rev (c :: cur_rev) :: split_lines [] s'
      else split_lines (c :: cur_rev) s'
  end.

(** [tf.readlines()] on a file opened in text mode. *)
Definition readlines (text : str) : list str :=
  split_lines [] (translate_newlines text).

Definition open_read (r : read_result) : M str :=
  match r with
  | ReadText t => ret t
  | ReadFails f => raise (exn_of_fault f)
  end.

(** [[l.strip() for l in tf.readlines() if l.strip()]] *)
Definition usable_lines (text : str) : list str :=
  map strip (filter (fun l => nonempty (strip l)) (readlines text)).

(** Lines 118-127. *)
Definition load_templates (args : Namespace) (r : read_result) : M (list str) :=
  let templates := DEFAULT_TEMPLATES in
  match templates_file args with
  | Some path =>
      if nonempty path then
        try_except
          (text <- open_read r ;;
           let lines := usable_lines text in
           match lines with
           | [] => ret templates
           | _ => ret lines
           end)
          is_Exception
          (fun e => print (TemplatesWarning path e) ;;; ret templates)
      else ret templates
  | None => ret templates
  end.

(** [ensure_dir_for_file]: the target path is absolute, so its directory
    name is never empty and [os.makedirs] is always called. *)
Definition ensure_dir_for_file (ok : bool) : M unit :=
  emit Makedirs ;;; if ok then ret tt else raise OSError.

(** The header of a new target file; [textwrap.dedent] leaves this text,
    which has no indented line, as it is. *)
Definition HEADER : str :=
  lit "# Micro updates" ++ [NL; NL]
  ++ lit "This file collects tiny, useful notes and TODOs created automatically."
  ++ [NL; NL].

(** Lines 131-136. *)
Definition create_if_missing (ok : bool) : M unit :=
  fun w =>
    match target w with
    | Some _ => Ok tt w
    | None =>
        if ok then Ok tt (record (CreateFile HEADER) (created HEADER w))
        else Raise OSError w
    end.

(** Lines 139-144. *)
Definition switch_branch (args : Namespace) (p_checkout p_new : proc) : M unit :=
  match branch args with
  | Some b =>
      if nonempty b then
        try_except
          (run_cmd [lit "git"; lit "checkout"; b] true p_checkout ;;; ret tt)
          is_RuntimeError
          (fun _ => run_cmd [lit "git"; lit "checkout"; lit "-b"; b]
                            true p_new ;;; ret tt)
      else ret tt
  | None => ret tt
  end.

Definition parse_args_or_exit (args : list str) : M Namespace :=
  match parse_args args with
  | Parsed ns => ret ns
  | UsageError e => print_err (Usage e) ;;; raise (SystemExit 2)
  | ParseBeyond => fun _ => Beyond OutOfFragment
  end.

(** [main] up to the loop (lines 97-160). *)
Definition startup (E : env) : M (Namespace * list str) :=
  args <- parse_args_or_exit (argv E) ;;
  is_repo <- is_git_repo (rev_parse E) ;;
  if negb is_repo then
    print_err NotAGitRepository ;;; raise (SystemExit 1)
  else
    templates <- load_templates args (templates_read E) ;;
    ensure_dir_for_file (makedirs_ok E) ;;;
    create_if_missing (create_ok E) ;;;
    switch_branch args (checkout E) (checkout_b E) ;;;
    print (Banner args) ;;;
    ret (args, templates).

(* ================================================================== *)
(** ** The loop                                                        *)
(* ================================================================== *)

(** The commit message of a cycle (line 178). *)
Definition full_message (args : Namespace) (utc : datetime) : str :=
  message args ++ [SP; EM_DASH; SP] ++ strftime_utc utc.

(** What a cycle reports about itself. *)
Record outcome : Type := mkOutcome {
  committed : bool;
  pushed : option bool }.

(** Stage, commit, push and report (lines 176-191). *)
Definition commit_and_report (args : Namespace) (ce : cycle_env) : M outcome :=
  let full_msg := full_message args (ce_utc_msg ce) in
  committed <- git_stage_and_commit (file args) full_msg (no_verify args)
                                    (ce_add ce) (ce_commit ce) ;;
  if committed then
    let now := isoformat_seconds (ce_now ce) in
    print (Committed now full_msg) ;;;
    if truthy (push args) then
      pushed <- git_push (ce_push ce) ;;
      (if pushed then print (PushedToRemote now) else print (PushFailed now)) ;;;
      ret (mkOutcome true (Some pushed))
    else ret (mkOutcome true None)
  else
    print NoCommitCreated ;;;
    ret (mkOutcome false None).

(** The work phase of one cycle (lines 173-191). *)
Definition work (args : Namespace) (templates : list str) (ce : cycle_env)
  : M outcome :=
  entry <- lift_fres (generate_entry templates (prefix args)
                                     (ce_utc_entry ce) (ce_pick ce)) ;;
  append_entry entry (ce_append_ok ce) ;;;
  commit_and_report args ce.

(** The world in which the work of a cycle is done. *)
Definition at_work (ce : cycle_env) (w : world) : world :=
  later (Z.of_N (ce_work_ms ce) # 1000) w.

(** The work phase with the time it takes. *)
Definition work_phase (args : Namespace) (templates : list str)
    (ce : cycle_env) : M outcome :=
  advance (Z.of_N (ce_work_ms ce) # 1000) ;;;
  work args templates ce.

(** The body of the [try] (lines 164-197): the delay is computed first,
    then the work is done, then the loop waits. *)
Definition cycle_body (args : Namespace) (templates : list str)
    (sig : option Q) (ce : cycle_env) : M unit :=
  let delay := compute_delay args (ce_draw ce) in
  work_phase args templates ce ;;;
  wait sig delay.

(** The [except Exception] clause (lines 199-205). *)
Definition on_error (sig : option Q) (e : exn) : M unit :=
  print_err (ErrorInLoop e) ;;;
  backoff 5 sig.

(** One pass through the body of the [while]. *)
Definition cycle (args : Namespace) (templates : list str)
    (sig : option Q) (ce : cycle_env) : M unit :=
  try_except (cycle_body args templates sig ce) is_Exception (on_error sig).

(** The state of the running loop. *)
Record loop_state : Type := mkLoopState {
  ls_args : Namespace;
  ls_templates : list str;
  ls_cycle : nat;             (* cycles started so far *)
  ls_world : world }.

(** How the process ended. *)
Inductive ending : Type :=
| ExitStatus (code : Z)      (* normal return, or [SystemExit] *)
| Uncaught (e : exn)         (* a traceback *)
| NoAnswer (g : gap).

Inductive progress : Type :=
| Running (s : loop_state)
| Ended (how : ending) (w : world).

(** The test of the [while] and one pass (lines 162-207). *)
Definition loop_step (E : env) (s : loop_state) : progress :=
  match stop_signal_received (sigint E) (ls_world s) with
  | Ok true w =>
      match print ExitedCleanly w with
      | Ok _ w' => Ended (ExitStatus 0) w'
      | Raise e w' => Ended (Uncaught e) w'
      | Beyond g => Ended (NoAnswer g) w
      end
  | Ok false w =>
      match cycle (ls_args s) (ls_templates s) (sigint E)
                  (cycles E (ls_cycle s)) w with
      | Ok _ w' => Running {| ls_args := ls_args s;
                              ls_templates := ls_templates s;
                              ls_cycle := S (ls_cycle s);
                              ls_world := w' |}
      | Raise (SystemExit c) w' => Ended (ExitStatus c) w'
      | Raise e w' => Ended (Uncaught e) w'
      | Beyond g => Ended (NoAnswer g) w
      end
  | Raise e w => Ended (Uncaught e) w
  | Beyond g => Ended (NoAnswer g) (ls_world s)
  end.

(** At most [n] passes of the loop. *)
Fixpoint run (n : nat) (E : env) (s : loop_state) : progress :=
  match n with
  | O => Running s
  | S n' =>
      match loop_step E s with
      | Running s' => run n' E s'
      | ended => ended
      end
  end.

Definition initial_world (E : env) : world :=
  {| clock := 0; target := target0 E; trace := [] |}.

(** [main()], observed for at most [n] passes of its loop. *)
Definition main (E : env) (n : nat) : progress :=
  match startup E (initial_world E) with
  | Ok (args, templates) w =>
      run n E {| ls_args := args; ls_templates := templates;
                 ls_cycle := 0; ls_world := w |}
  | Raise (SystemExit c) w => Ended (ExitStatus c) w
  | Raise e w => Ended (Uncaught e) w
  | Beyond g => Ended (NoAnswer g) (initial_world E)
  end.

(* ================================================================== *)
(** ** Observations on traces                                          *)
(* ================================================================== *)

Definition is_push (e : event) : bool :=
  match e with
  | Subprocess [a; b] => str_eqb a (lit "git") && str_eqb b (lit "push")
  | _ => false
  end.

Definition is_subprocess (e : event) : bool :=
  match e with Subprocess _ => true | _ => false end.

(** A git command other than the push. *)
Definition quiet_git (e : event) : bool := is_subprocess e && negb (is_push e).

(** A report on standard output. *)
Definition is_stdout (e : event) : bool :=
  match e with Stdout _ => true | _ => false end.

(** What the work phase does: git commands and reports. *)
Definition work_event (e : event) : bool := is_subprocess e || is_stdout e.

Definition is_file_write (e : event) : bool :=
  match e with CreateFile _ | AppendFile _ => true | _ => false end.

Definition is_warning (e : event) : bool :=
  match e with
  | Stdout (TemplatesWarning _ _) | Stderr (TemplatesWarning _ _) => true
  | _ => false
  end.

Definition is_error_report (e : event) : bool :=
  match e with
  | Stderr (ErrorInLoop _) => true
  | _ => false
  end.

(** Reads of the stop flag and sleeps: the events of waiting. *)
Definition is_timing (e : event) : bool :=
  match e with Poll _ | Sleep _ => true | _ => false end.

(** Every sleep of the trace lasts at most [bound] seconds and comes
    right after a read of the stop flag that found it clear. *)
Fixpoint sleeps_polled (bound : Q) (prev : option event) (tr : list event)
  : bool :=
  match tr with
  | [] => true
  | e :: tr' =>
      match e with
      | Sleep d =>
          Qle_bool d bound
          && match prev with Some (Poll false) => true | _ => false end
      | _ => true
      end && sleeps_polled bound (Some e) tr'
  end.

(** The sleeps of a trace, in order. *)
Fixpoint sleeps (tr : list event) : list Q :=
  match tr with
  | [] => []
  | Sleep d :: tr' => d :: sleeps tr'
  | _ :: tr' => sleeps tr'
  end.

(** [args.push] is not the boolean [False]. *)
Definition push_not_False (ns : Namespace) : Prop := push ns <> PyBool false.

(** The contents of the target file, empty when there is no file. *)
Definition contents (w : world) : str :=
  match target w with Some data => data | None => [] end.




(* ================================================================== *)
(** ** The rest of the helpers                                         *)
(* ================================================================== *)

(** [current_branch] (lines 42-44); [main] does not call it. *)
Definition current_branch (p : proc) : M str :=
  res <- run_cmd [lit "git"; lit "rev-parse"; lit "--abbrev-ref"; lit "HEAD"]
                 true p ;;
  ret (strip (stdout res)).

(** What [is_git_repo] answers for an outcome of [git rev-parse]. *)
Definition repo_ok (p : proc) : bool :=
  match p with
  | Ran c => (returncode c =? 0)%Z && str_eqb (strip (stdout c)) (lit "true")
  | NotStarted => false
  end.

Definition SLASH : N := 47%N.

(** [os.path.join(a, b)] on POSIX. *)
Definition path_join (a b : str) : str :=
  if startswith b [SLASH] then b
  else if negb (nonempty a) || endswith a [SLASH] then a ++ b
  else a ++ [SLASH] ++ b.

(** [os.path.dirname(p)] on POSIX: the part up to the last slash, without
    its trailing slashes unless it is made of slashes only. *)
Definition dirname (p : str) : str :=
  let head := rev (dropwhile (fun c => negb (N.eqb c SLASH)) (rev p)) in
  if nonempty head && negb (forallb (N.eqb SLASH) head)
  then rev (dropwhile (N.eqb SLASH) (rev head))
  else head.

(** Whether [ensure_dir_for_file path] calls [os.makedirs] (line 48). *)
Definition makes_directory (path : str) : bool := nonempty (dirname path).


(** The text of a template before its first brace, and the text after
    the four characters that follow. *)
Definition before_field (t : str) : str :=
  takewhile (fun c => negb (N.eqb c LBRACE)) t.
Definition after_field (t : str) : str :=
  skipn (List.length (before_field t) + 4) t.

(** A template that is text without braces around one [{ts}]. *)
Definition one_timestamp (t : str) : bool :=
  str_eqb t (before_field t ++ lit "{ts}" ++ after_field t)
  && plain_text (before_field t) && plain_text (after_field t).

(** An argument string that the parser reads as an option it does not
    know. *)
Definition unknown_option (a : str) : bool :=
  match classify a with
  | CTok (TOpt None _) => true
  | _ => false
  end.

(** The git commands of a trace, in order. *)
Fixpoint git_commands (tr : list event) : list (list str) :=
  match tr with
  | [] => []
  | Subprocess args :: tr' => args :: git_commands tr'
  | _ :: tr' => git_commands tr'
  end.

(** The command of [git_stage_and_commit]'s commit (lines 60-62). *)
Definition commit_command (message : str) (no_verify : bool) : list str :=
  let commit_cmd := [lit "git"; lit "commit"; lit "-m"; message] in
  if no_verify then list_insert 2 (lit "--no-verify") commit_cmd
  else commit_cmd.

(** The process exited with status 0. *)
Definition succeeded (p : proc) : bool :=
  match p with
  | Ran c => (returncode c =? 0)%Z
  | NotStarted => false
  end.

(** The process could be started. *)
Definition started (p : proc) : bool :=
  match p with Ran _ => true | NotStarted => false end.

(* ================================================================== *)
(** ** Sample inputs                                                   *)
(* ================================================================== *)

(** [--interval z --randomize] *)
Definition jitter_args (z : Z) : Namespace :=
  set_randomize true (set_interval z defaults).

Definition sample_time : datetime := mkDatetime 2024 5 17 9 30 0.

(** The entry of the third default template at [sample_time]. *)
Definition sample_entry : str :=
  lit "- DOC: Minor README tweak suggested (2024-05-17T09:30:00Z)." ++ [NL].

Definition exit0 : proc := Ran (mkCompleted 0 []).
Definition exit1 : proc := Ran (mkCompleted 1 []).

(** A cycle in which everything works: a commit is made and pushed. *)
Definition good_cycle : cycle_env :=
  {| ce_work_ms := 250; ce_draw := 0; ce_pick := 2;
     ce_utc_entry := sample_time; ce_utc_msg := sample_time;
     ce_now := sample_time; ce_append_ok := true;
     ce_add := exit0; ce_commit := exit0; ce_push := exit0 |}.

(** A cycle in which git finds nothing to commit. *)
Definition nothing_to_commit_cycle : cycle_env :=
  {| ce_work_ms := 250; ce_draw := 0; ce_pick := 2;
     ce_utc_entry := sample_time; ce_utc_msg := sample_time;
     ce_now := sample_time; ce_append_ok := true;
     ce_add := exit0; ce_commit := exit1; ce_push := exit0 |}.

(** A cycle in which the target file cannot be written. *)
Definition read_only_cycle : cycle_env :=
  {| ce_work_ms := 250; ce_draw := 0; ce_pick := 2;
     ce_utc_entry := sample_time; ce_utc_msg := sample_time;
     ce_now := sample_time; ce_append_ok := false;
     ce_add := exit0; ce_commit := exit0; ce_push := exit0 |}.

(** A fresh repository, no templates file, no SIGINT. *)
Definition sample_env (args : list str) (c : cycle_env) : env :=
  {| argv := args; target0 := None;
     rev_parse := Ran (mkCompleted 0 (lit "true" ++ [NL]));
     templates_read := ReadFails CannotOpen;
     makedirs_ok := true; create_ok := true;
     checkout := exit0; checkout_b := exit0;
     sigint := None; cycles := fun _ => c |}.

(** A run with a templates file of one line, [Fix {issue} ({ts})]. *)
Definition custom_env : env :=
  {| argv := [lit "--templates-file"; lit "t.txt"]; target0 := None;
     rev_parse := Ran (mkCompleted 0 (lit "true" ++ [NL]));
     templates_read := ReadText (lit "Fix {issue} ({ts})" ++ [NL]);
     makedirs_ok := true; create_ok := true;
     checkout := exit0; checkout_b := exit0;
     sigint := None; cycles := fun _ => good_cycle |}.

(** [--templates-file t.txt] *)
Definition templates_args : Namespace :=
  set_templates_file (Some (lit "t.txt")) defaults.


Definition empty_world : world := {| clock := 0; target := None; trace := [] |}.

Definition sample_state (w : world) : loop_state :=
  {| ls_args := defaults; ls_templates := DEFAULT_TEMPLATES;
     ls_cycle := 0; ls_world := w |}.

(** A cycle in which the commit is made and the push is refused. *)
Definition push_fails_cycle : cycle_env :=
  {| ce_work_ms := 250; ce_draw := 0; ce_pick := 2;
     ce_utc_entry := sample_time; ce_utc_msg := sample_time;
     ce_now := sample_time; ce_append_ok := true;
     ce_add := exit0; ce_commit := exit0; ce_push := exit1 |}.

(** The fresh repository of [sample_env], with SIGINT at time [t]. *)
Definition interrupted_env (args : list str) (c : cycle_env) (t : Q) : env :=
  {| argv := args; target0 := None;
     rev_parse := Ran (mkCompleted 0 (lit "true" ++ [NL]));
     templates_read := ReadFails CannotOpen;
     makedirs_ok := true; create_ok := true;
     checkout := exit0; checkout_b := exit0;
     sigint := Some t; cycles := fun _ => c |}.


(** A repository in which the branch can be neither checked out nor
    created. *)
Definition stuck_branch_env : env :=
  {| argv := [lit "--branch"; lit "auto"]; target0 := None;
     rev_parse := Ran (mkCompleted 0 (lit "true" ++ [NL]));
     templates_read := ReadFails CannotOpen;
     makedirs_ok := true; create_ok := true;
     checkout := exit1; checkout_b := exit1;
     sigint := None; cycles := fun _ => good_cycle |}.

(* ================================================================== *)
(** * Properties                                                       *)
(* ================================================================== *)

(** ** Comparisons on the clock *)

Lemma Qlt_bool_true (a b : Q) : Qlt_bool a b = true <-> a < b.
Proof.
  unfold Qlt_bool. rewrite negb_true_iff. split; intros H.
  - apply Qnot_le_lt. intros Hle. apply Qle_bool_iff in Hle. congruence.
  - destruct (Qle_bool b a) eqn:E; [|reflexivity].
    apply Qle_bool_iff in E. exfalso. exact (Qlt_not_le _ _ H E).
Qed.

Lemma Qlt_bool_false (a b : Q) : Qlt_bool a b = false <-> b <= a.
Proof.
  unfold Qlt_bool. rewrite negb_false_iff. apply Qle_bool_iff.
Qed.

Lemma py_max_spec (a b : Q) :
  a <= py_max a b /\ b <= py_max a b /\ (py_max a b == a \/ py_max a b == b).
Proof.
  unfold py_max. destruct (Qlt_bool a b) eqn:E.
  - apply Qlt_bool_true in E. split; [lra | split; [lra | right; reflexivity]].
  - apply Qlt_bool_false in E. split; [lra | split; [lra | left; reflexivity]].
Qed.

Lemma py_min_spec (a b : Q) :
  py_min a b <= a /\ py_min a b <= b /\ (py_min a b == a \/ py_min a b == b).
Proof.
  unfold py_min. destruct (Qlt_bool b a) eqn:E.
  - apply Qlt_bool_true in E. split; [lra | split; [lra | right; reflexivity]].
  - apply Qlt_bool_false in E. split; [lra | split; [lra | left; reflexivity]].
Qed.

Lemma flag_at_true (t c : Q) : flag_at (Some t) c = true <-> t <= c.
Proof. simpl. apply Qle_bool_iff. Qed.

Lemma flag_at_false (t c : Q) : flag_at (Some t) c = false <-> c < t.
Proof.
  simpl. split; intros H.
  - apply Qnot_le_lt. intros Hle. apply Qle_bool_iff in Hle. congruence.
  - destruct (Qle_bool t c) eqn:E; [|reflexivity].
    apply Qle_bool_iff in E. exfalso. exact (Qlt_not_le _ _ H E).
Qed.

(** ** The random draw and the delay *)



(** Without jitter the delay is the base interval. *)
Lemma plain_delay_is_base (args : Namespace) (draw : N) :
  randomize args = false ->
  compute_delay args draw = inject_Z (interval args).
Proof. intros H. unfold compute_delay. rewrite H. reflexivity. Qed.




(** ** Waiting *)

Lemma inject_Z_succ (n : nat) :
  inject_Z (Z.of_nat (S n)) == inject_Z (Z.of_nat n) + 1.
Proof.
  rewrite Nat2Z.inj_succ. unfold Z.succ. rewrite inject_Z_plus. reflexivity.
Qed.

Lemma inject_Z_nat_pos (n : nat) : 0 < inject_Z (Z.of_nat n) -> (0 < n)%nat.
Proof.
  intros H. destruct n; [|lia]. exfalso. exact (Qlt_irrefl 0 H).
Qed.

Lemma sleeps_polled_app (bound : Q) (prev : option event) (a b : list event) :
  sleeps_polled bound prev a = true ->
  (forall p, sleeps_polled bound p b = true) ->
  sleeps_polled bound prev (a ++ b) = true.
Proof.
  revert prev. induction a as [|e a IH]; intros prev Ha Hb; simpl.
  - apply Hb.
  - simpl in Ha. apply andb_true_iff in Ha as [H1 H2].
    rewrite H1. simpl. apply IH; assumption.
Qed.

Lemma wait_loop_spec (sig : option Q) (delay : Q) :
  forall fuel slept w,
    (0 < fuel)%nat ->
    delay - slept + 1 <= inject_Z (Z.of_nat fuel) ->
    exists w' tr,
      wait_loop fuel sig delay slept w = Ok tt w'
      /\ target w' = target w
      /\ trace w' = trace w ++ tr
      /\ forallb is_timing tr = true
      /\ (forall prev, sleeps_polled 1 prev tr = true)
      /\ clock w <= clock w'
      /\ (forall t, sig = Some t -> t <= clock w -> clock w' = clock w)
      /\ (forall t, sig = Some t -> clock w <= t -> clock w' <= t + 1)
      /\ (sig = None -> slept < delay -> clock w' == clock w + (delay - slept)).
Proof.
  induction fuel as [|fuel IH]; intros slept w Hpos Hfuel; [lia|].
  cbn [wait_loop].
  destruct (Qlt_bool slept delay) eqn:Hlt.
  - apply Qlt_bool_true in Hlt.
    unfold bind at 1. unfold stop_signal_received.
    destruct (flag_at sig (clock w)) eqn:Hflag.
    + eexists; exists [Poll true]. unfold ret.
      repeat split; simpl; try reflexivity; try lra.
      * intros t Hs Ht. subst sig. apply flag_at_true in Hflag. lra.
      * intros Hs. subst sig. discriminate.
    + destruct (py_min_spec 1 (delay - slept)) as (Hm1 & Hm2 & Hm3).
      set (d := py_min 1 (delay - slept)) in *.
      assert (Hd : 0 < d) by (destruct Hm3 as [E | E]; rewrite E; lra).
      unfold bind at 1. unfold sleep.
      assert (Hnn : Qlt_bool d 0 = false) by (apply Qlt_bool_false; lra).
      rewrite Hnn.
      rewrite inject_Z_succ in Hfuel.
      set (w2 := record (Sleep d) (later d (record (Poll false) w))) in *.
      destruct (IH (slept + 1) w2)
        as (w' & tr & Hrun & Htgt & Htr & Htim & Hpoll & Hclk & Hset & Hin & Hnone).
      { apply inject_Z_nat_pos. lra. }
      { lra. }
      exists w', ([Poll false; Sleep d] ++ tr).
      unfold w2 in *. cbn [clock target trace record later] in *.
      split; [exact Hrun|]. split; [exact Htgt|].
      split; [rewrite Htr, <- !app_assoc; reflexivity|].
      split; [simpl; exact Htim|].
      split.
      { intros prev. apply sleeps_polled_app; [|exact Hpoll].
        assert (Hb : Qle_bool d 1 = true) by (apply Qle_bool_iff; exact Hm1).
        simpl. rewrite Hb. reflexivity. }
      split; [lra|].
      split.
      { intros t Hs Ht. subst sig. apply flag_at_false in Hflag. lra. }
      split.
      { intros t Hs Ht. subst sig. apply flag_at_false in Hflag.
        destruct (Qlt_le_dec t (clock w + d)) as [Hover | Hunder].
        - rewrite (Hset t eq_refl) by lra. lra.
        - apply (Hin t eq_refl). exact Hunder. }
      { intros Hs _.
        destruct (Qlt_le_dec (slept + 1) delay) as [Hmore | Hdone].
        - rewrite (Hnone Hs Hmore).
          assert (d == 1) by (destruct Hm3 as [E | E]; rewrite E; lra). lra.
        - assert (Hstop : wait_loop fuel sig delay (slept + 1)
                   (record (Sleep d) (later d (record (Poll false) w)))
                 = Ok tt (record (Sleep d) (later d (record (Poll false) w)))).
          { destruct fuel;
              [exfalso; change (inject_Z (Z.of_nat 0)) with 0 in Hfuel; lra|].
            cbn [wait_loop].
            assert (E : Qlt_bool (slept + 1) delay = false)
              by (apply Qlt_bool_false; lra).
            rewrite E. reflexivity. }
          rewrite Hstop in Hrun. injection Hrun as <-.
          cbn [clock record later].
          assert (d == delay - slept) by (destruct Hm3 as [E | E]; rewrite E; lra).
          lra. }
  - apply Qlt_bool_false in Hlt.
    exists w, []. unfold ret. rewrite app_nil_r.
    repeat split; try reflexivity; try lra.
    all: intros; lra.
Qed.

Lemma wait_fuel_enough (delay : Q) :
  (0 < wait_fuel delay)%nat
  /\ delay - 0 + 1 <= inject_Z (Z.of_nat (wait_fuel delay)).
Proof.
  unfold wait_fuel. split; [lia|].
  rewrite inject_Z_succ.
  pose proof (Qle_ceiling delay) as Hc.
  assert (Hz : (Qceiling delay <= Z.of_nat (Z.to_nat (Qceiling delay)))%Z) by lia.
  rewrite Zle_Qle in Hz. lra.
Qed.

(** The wait always ends, leaves the file alone, and only reads the flag
    and sleeps. *)
Lemma wait_spec (sig : option Q) (delay : Q) (w : world) :
  exists w' tr,
    wait sig delay w = Ok tt w'
    /\ target w' = target w
    /\ trace w' = trace w ++ tr
    /\ forallb is_timing tr = true
    /\ (forall prev, sleeps_polled 1 prev tr = true)
    /\ clock w <= clock w'
    /\ (forall t, sig = Some t -> t <= clock w -> clock w' = clock w)
    /\ (forall t, sig = Some t -> clock w <= t -> clock w' <= t + 1)
    /\ (sig = None -> 0 < delay -> clock w' == clock w + delay).
Proof.
  destruct (wait_fuel_enough delay) as [Hpos Hfuel].
  destruct (wait_loop_spec sig delay (wait_fuel delay) 0 w Hpos Hfuel)
    as (w' & tr & H1 & H2 & H3 & H4 & H5 & H6 & H7 & H8 & H9).
  exists w', tr. unfold wait. repeat (split; [assumption|]).
  intros Hs Hd. rewrite (H9 Hs Hd). lra.
Qed.



Example wait_stopped_after_four_sleeps :
  exists w',
    wait (Some (7 # 2)) 3600 {| clock := 0; target := None; trace := [] |}
      = Ok tt w'
    /\ clock w' == 4
    /\ trace w' = [Poll false; Sleep 1; Poll false; Sleep 1; Poll false;
                   Sleep 1; Poll false; Sleep 1; Poll true].
Proof. eexists. split; [vm_compute; reflexivity | split; reflexivity]. Qed.

(** ** Formatting *)

Example format_plain :
  format (lit "X {ts}") (lit "T") = FOk (lit "X T").
Proof. reflexivity. Qed.

Example format_escapes :
  format (lit "{{a}} {ts}}}") (lit "T") = FOk (lit "{a} T}").
Proof. reflexivity. Qed.

Example format_unknown_name :
  format (lit "Fix {issue} ({ts})") (lit "T") = FRaise (KeyError (lit "issue")).
Proof. reflexivity. Qed.

Example format_positional : format (lit "{}") (lit "T") = FRaise IndexError.
Proof. reflexivity. Qed.

Example format_single_close : format (lit "{ts}}") (lit "T") = FRaise ValueError.
Proof. reflexivity. Qed.

Example generate_default :
  generate_entry DEFAULT_TEMPLATES None sample_time 2
  = FOk (lit "- DOC: Minor README tweak suggested (2024-05-17T09:30:00Z)."
         ++ [NL]).
Proof. reflexivity. Qed.


Lemma resolve_field_exception (name ts : str) (e : exn) :
  resolve_field name ts = FRaise e -> is_Exception e = true.
Proof.
  unfold resolve_field.
  repeat match goal with
         | |- context [if ?b then _ else _] => destruct b
         end; intros H; inversion H; reflexivity.
Qed.

Lemma str_eqb_eq (a b : str) : str_eqb a b = true <-> a = b.
Proof.
  revert b. induction a as [|x a IH]; intros [|y b]; simpl;
    try (split; [discriminate | congruence | reflexivity]).
  - split; reflexivity.
  - split; [discriminate | discriminate].
  - split; [discriminate | discriminate].
  - rewrite andb_true_iff, N.eqb_eq, IH. split.
    + intros [-> ->]. reflexivity.
    + intros H. inversion H. auto.
Qed.

Lemma resolve_field_ok (name ts v : str) :
  resolve_field name ts = FOk v -> v = ts /\ name = lit "ts".
Proof.
  unfold resolve_field.
  repeat match goal with
         | |- context [if ?b then _ else _] => destruct b eqn:?
         end; intros H; inversion H; subst.
  split; [reflexivity | apply str_eqb_eq; assumption].
Qed.

(** What one step of the scanner can do. *)
Lemma format_step_cases (st : fstate) (c : N) (out ts : str) :
  match format_step st c out ts with
  | inl (FOk _) => False
  | inl (FRaise e) => is_Exception e = true
  | inl FBeyond => True
  | inr (InText, out') =>
      out' = c :: out /\ c <> LBRACE /\ c <> RBRACE /\ st = InText
      \/ out' = c :: out /\ (c = LBRACE \/ c = RBRACE) /\ st <> InText
      \/ out' = rev ts ++ out /\ c = RBRACE
  | inr (_, out') => out' = out
  end.
Proof.
  assert (Hfield : forall n,
    match field_char c n out ts with
    | inl (FOk _) => False
    | inl (FRaise e) => is_Exception e = true
    | inl FBeyond => True
    | inr (InText, out') => out' = rev ts ++ out /\ c = RBRACE
    | inr (_, out') => out' = out
    end).
  { intros n. unfold field_char.
    destruct (N.eqb c RBRACE) eqn:Ec.
    - apply N.eqb_eq in Ec.
      destruct (resolve_field (rev n) ts) eqn:Er; auto.
      + apply resolve_field_ok in Er as [-> _]. auto.
      + eapply resolve_field_exception; eauto.
    - destruct (N.eqb c LBRACE); [reflexivity|].
      destruct (N.eqb c LBRACKET || N.eqb c COLON || N.eqb c BANG); auto. }
  destruct st; simpl.
  - destruct (N.eqb c LBRACE) eqn:E1; [reflexivity|].
    destruct (N.eqb c RBRACE) eqn:E2; [reflexivity|].
    apply N.eqb_neq in E1, E2. left. auto.
  - destruct (N.eqb c LBRACE) eqn:E1.
    + apply N.eqb_eq in E1. subst c. right. left.
      repeat split; auto. discriminate.
    + specialize (Hfield []).
      destruct (field_char c [] out ts) as [[| |]|[[| | |] o]]; auto.
  - destruct (N.eqb c RBRACE) eqn:E1; [|reflexivity].
    apply N.eqb_eq in E1. subst c. right. left.
    repeat split; auto. discriminate.
  - specialize (Hfield name_rev).
    destruct (field_char c name_rev out ts) as [[| |]|[[| | |] o]]; auto.
Qed.

Lemma format_go_exception (ts : str) :
  forall s st out e,
    format_go st out ts s = FRaise e -> is_Exception e = true.
Proof.
  induction s as [|c s IH]; intros st out e H; simpl in H.
  - destruct st; inversion H; reflexivity.
  - pose proof (format_step_cases st c out ts) as Hc.
    destruct (format_step st c out ts) as [[| |]|[st' out']].
    + contradiction.
    + inversion H; subst. exact Hc.
    + discriminate.
    + eapply IH; eauto.
Qed.

Lemma generate_entry_exception pool prefix now pick e :
  generate_entry pool prefix now pick = FRaise e -> is_Exception e = true.
Proof.
  unfold generate_entry, random_choice.
  destruct pool as [|t pool]; [intros H; inversion H; reflexivity|].
  destruct (nth_error (t :: pool) (pick mod List.length (t :: pool)));
    [|intros H; inversion H; reflexivity].
  unfold format.
  destruct (format_go InText [] (strftime_utc now) s) eqn:E; intros H;
    inversion H; subst.
  eapply format_go_exception; eauto.
Qed.

(** ** Trailing newlines *)

Lemma lead_cons (c : N) (s : str) :
  lead (c :: s) = if N.eqb NL c then S (lead s) else 0%nat.
Proof. unfold lead. cbn [takewhile]. destruct (N.eqb NL c); reflexivity. Qed.

Lemma lead_stop (c : N) (s : str) : c <> NL -> lead (c :: s) = 0%nat.
Proof.
  intros Hc. rewrite lead_cons.
  destruct (N.eqb NL c) eqn:E; [apply N.eqb_eq in E; congruence | reflexivity].
Qed.


Lemma lead_app_stop (a b : str) (c : N) :
  c <> NL -> lead (a ++ c :: b) = lead a.
Proof.
  intros Hc. induction a as [|x a IH]; cbn [app].
  - rewrite lead_stop by assumption. reflexivity.
  - rewrite !lead_cons, IH. reflexivity.
Qed.


Lemma forallb_rev (p : N -> bool) (s : str) : forallb p (rev s) = forallb p s.
Proof.
  induction s as [|x s IH]; simpl; [reflexivity|].
  rewrite forallb_app, IH. simpl. rewrite andb_true_r. apply andb_comm.
Qed.

Lemma trailing_newlines_lead (s : str) : trailing_newlines s = lead (rev s).
Proof. reflexivity. Qed.







Lemma endswith_newline (s : str) :
  endswith s [NL] = negb (Nat.eqb (trailing_newlines s) 0).
Proof.
  unfold endswith. rewrite trailing_newlines_lead.
  cbn [rev app]. destruct (rev s) as [|x r]; [reflexivity|].
  cbn [startswith]. rewrite lead_cons, N.eqb_sym.
  destruct (N.eqb NL x); [|reflexivity].
  destruct r; reflexivity.
Qed.

Lemma entry_shape_trailing (head line : str) :
  trailing_newlines (head ++ [SP] ++ line ++ [NL])
  = S (trailing_newlines line).
Proof.
  rewrite !trailing_newlines_lead.
  rewrite !rev_app_distr. cbn [rev app]. rewrite lead_cons.
  rewrite N.eqb_refl. f_equal. rewrite <- app_assoc. cbn [app].
  apply lead_app_stop. discriminate.
Qed.

Lemma append_data_of_terminated (entry : str) :
  (0 < trailing_newlines entry)%nat -> append_data entry = entry.
Proof.
  intros H. unfold append_data. rewrite endswith_newline.
  destruct (trailing_newlines entry); [lia|]. cbn. apply app_nil_r.
Qed.

Lemma generate_entry_ok pool prefix now pick entry :
  generate_entry pool prefix now pick = FOk entry ->
  exists templ line,
    random_choice pool pick = inr templ
    /\ format templ (strftime_utc now) = FOk line
    /\ entry = entry_head prefix ++ [SP] ++ line ++ [NL].
Proof.
  unfold generate_entry.
  destruct (random_choice pool pick) as [e | templ]; [discriminate|].
  destruct (format templ (strftime_utc now)) as [line | |] eqn:Hf;
    try discriminate.
  intros H. inversion H. eauto.
Qed.



(** ** The backoff *)

Lemma flag_at_compat (sig : option Q) (c c' : Q) :
  c == c' -> flag_at sig c = flag_at sig c'.
Proof.
  intros H. destruct sig as [t|]; [|reflexivity]. simpl.
  apply eq_true_iff_eq. rewrite !Qle_bool_iff, H. tauto.
Qed.

(** The backoff sleeps [k] times one second, [k <= n]: once for every
    read of the flag that finds it clear, and it stops at the first read
    that finds it set. *)
Lemma backoff_spec (sig : option Q) :
  forall n w,
    exists w' tr k,
      backoff n sig w = Ok tt w'
      /\ target w' = target w
      /\ trace w' = trace w ++ tr
      /\ forallb is_timing tr = true
      /\ (forall prev, sleeps_polled 1 prev tr = true)
      /\ sleeps tr = repeat 1 k
      /\ (k <= n)%nat
      /\ clock w' == clock w + inject_Z (Z.of_nat k)
      /\ (forall i, (i < k)%nat ->
            flag_at sig (clock w + inject_Z (Z.of_nat i)) = false)
      /\ ((k < n)%nat ->
            flag_at sig (clock w + inject_Z (Z.of_nat k)) = true).
Proof.
  induction n as [|n IH]; intros w.
  - exists w, [], 0%nat. cbn [backoff]. unfold ret. rewrite app_nil_r.
    repeat split; try reflexivity; try lia.
    change (inject_Z (Z.of_nat 0)) with 0. lra.
  - cbn [backoff]. unfold bind at 1. unfold stop_signal_received.
    destruct (flag_at sig (clock w)) eqn:Hflag.
    + exists (record (Poll true) w), [Poll true], 0%nat. unfold ret.
      repeat split; try reflexivity; try lia.
      * change (inject_Z (Z.of_nat 0)) with 0. cbn. lra.
      * intros _. rewrite <- Hflag. apply flag_at_compat.
        change (inject_Z (Z.of_nat 0)) with 0. lra.
    + unfold bind at 1. unfold sleep.
      change (Qlt_bool 1 0) with false. cbn iota.
      set (w2 := record (Sleep 1) (later 1 (record (Poll false) w))).
      destruct (IH w2)
        as (w' & tr & k & Hrun & Htgt & Htr & Htim & Hpoll & Hsl & Hk & Hclk
            & Hclear & Hset).
      exists w', ([Poll false; Sleep 1] ++ tr), (S k).
      unfold w2 in *. cbn [clock target trace record later] in *.
      split; [exact Hrun|]. split; [exact Htgt|].
      split; [rewrite Htr, <- !app_assoc; reflexivity|].
      split; [simpl; exact Htim|].
      split; [intros prev; apply sleeps_polled_app; [reflexivity | exact Hpoll]|].
      split; [cbn [sleeps app repeat]; rewrite Hsl; reflexivity|].
      split; [lia|].
      split; [rewrite Hclk, inject_Z_succ; lra|].
      split.
      * intros i Hi. destruct i as [|i].
        -- rewrite <- Hflag. apply flag_at_compat.
           change (inject_Z (Z.of_nat 0)) with 0. lra.
        -- rewrite <- (Hclear i) by lia. apply flag_at_compat.
           rewrite inject_Z_succ. lra.
      * intros Hlt. rewrite <- Hset by lia. apply flag_at_compat.
        rewrite inject_Z_succ. lra.
Qed.

(** ** The git helpers *)

Lemma git_stage_and_commit_spec (file_path msg : str) (nv : bool)
    (p_add p_commit : proc) (w : world) :
  exists w' tr,
    (git_stage_and_commit file_path msg nv p_add p_commit w = Ok true w'
     \/ git_stage_and_commit file_path msg nv p_add p_commit w = Ok false w'
     \/ git_stage_and_commit file_path msg nv p_add p_commit w = Raise OSError w')
    /\ clock w' = clock w
    /\ target w' = target w
    /\ trace w' = trace w ++ tr
    /\ forallb quiet_git tr = true.
Proof.
  unfold git_stage_and_commit, try_except, bind, run_cmd, emit, raise, ret.
  destruct p_add as [ca|]; cbn.
  - destruct (returncode ca =? 0)%Z; cbn.
    + destruct p_commit as [cc|]; cbn.
      * destruct (returncode cc =? 0)%Z; cbn;
          eexists; eexists; (split; [eauto|]);
          cbn; rewrite <- !app_assoc; (repeat split);
          destruct nv; reflexivity.
      * eexists; eexists; (split; [eauto|]);
          cbn; rewrite <- !app_assoc; (repeat split);
          destruct nv; reflexivity.
    + eexists; eexists; (split; [eauto|]). cbn. repeat split.
  - eexists; eexists; (split; [eauto|]). cbn. repeat split.
Qed.

Lemma git_push_spec (p : proc) (w : world) :
  let w' := record (Subprocess [lit "git"; lit "push"]) w in
  git_push p w = Ok true w' \/ git_push p w = Ok false w'
  \/ git_push p w = Raise OSError w'.
Proof.
  unfold git_push, try_except, bind, run_cmd, emit, raise, ret.
  destruct p as [c|]; cbn; [|auto].
  destruct (returncode c =? 0)%Z; cbn; auto.
Qed.

(** ** The work phase *)

Lemma commit_and_report_spec (args : Namespace) (ce : cycle_env) (w : world) :
  let same (w' : world) :=
    clock w' = clock w /\ target w' = target w
    /\ exists tr, trace w' = trace w ++ tr /\ forallb work_event tr = true in
  match commit_and_report args ce w with
  | Ok _ w' => same w'
  | Raise e w' => e = OSError /\ same w'
  | Beyond _ => False
  end.
Proof.
  intros same. unfold commit_and_report. unfold bind at 1.
  destruct (git_stage_and_commit_spec (file args)
              (full_message args (ce_utc_msg ce)) (no_verify args)
              (ce_add ce) (ce_commit ce) w)
    as (w1 & tr1 & Hres & Hclk & Htgt & Htr & Hq).
  assert (Hq' : forallb work_event tr1 = true).
  { rewrite forallb_forall in *. intros e He. specialize (Hq e He).
    unfold quiet_git in Hq. apply andb_true_iff in Hq as [Hq _].
    unfold work_event. rewrite Hq. reflexivity. }
  assert (Hsame : forall tr2 w',
            clock w' = clock w1 -> target w' = target w1 ->
            trace w' = trace w1 ++ tr2 ->
            forallb work_event tr2 = true -> same w').
  { intros tr2 w' H1 H2 H3 H4. unfold same.
    split; [congruence | split; [congruence|]].
    exists (tr1 ++ tr2). rewrite H3, Htr, <- app_assoc.
    split; [reflexivity|]. rewrite forallb_app, Hq', H4. reflexivity. }
  set (now := isoformat_seconds (ce_now ce)).
  set (msg := full_message args (ce_utc_msg ce)) in *.
  destruct Hres as [H | [H | H]]; rewrite H.
  - unfold print, emit, bind at 1.
    destruct (truthy (push args)).
    + unfold bind at 1.
      destruct (git_push_spec (ce_push ce) (record (Stdout (Committed now msg)) w1))
        as [Hp | [Hp | Hp]]; rewrite Hp; unfold bind, ret; cbn beta iota.
      * eapply (Hsame [_; _; _]); cbn [clock target trace record];
          rewrite <- ?app_assoc; reflexivity.
      * eapply (Hsame [_; _; _]); cbn [clock target trace record];
          rewrite <- ?app_assoc; reflexivity.
      * split; [reflexivity|].
        eapply (Hsame [_; _]); cbn [clock target trace record];
          rewrite <- ?app_assoc; reflexivity.
    + unfold ret. eapply (Hsame [_]); reflexivity.
  - unfold print, emit, bind, ret. cbn beta iota.
    eapply (Hsame [_]); reflexivity.
  - split; [reflexivity|]. apply (Hsame []); auto.
    symmetry. apply app_nil_r.
Qed.

Lemma commit_and_report_no_commit (args : Namespace) (ce : cycle_env)
    (w w2 : world) :
  git_stage_and_commit (file args) (full_message args (ce_utc_msg ce))
    (no_verify args) (ce_add ce) (ce_commit ce) w = Ok false w2 ->
  commit_and_report args ce w
  = Ok (mkOutcome false None) (record (Stdout NoCommitCreated) w2).
Proof.
  intros H. unfold commit_and_report. unfold bind at 1. rewrite H.
  reflexivity.
Qed.

Lemma work_phase_unfold (args : Namespace) (templates : list str)
    (ce : cycle_env) (w : world) :
  work_phase args templates ce w =
  match generate_entry templates (prefix args) (ce_utc_entry ce) (ce_pick ce) with
  | FOk entry =>
      if ce_append_ok ce then
        commit_and_report args ce
          (record (AppendFile (append_data entry))
                  (written (append_data entry) (at_work ce w)))
      else Raise OSError (at_work ce w)
  | FRaise e => Raise e (at_work ce w)
  | FBeyond => Beyond OutOfFragment
  end.
Proof.
  unfold work_phase, work, bind, advance, lift_fres, append_entry, at_work.
  destruct (generate_entry templates (prefix args) (ce_utc_entry ce)
              (ce_pick ce)); cbn; [|reflexivity|reflexivity].
  destruct (ce_append_ok ce); reflexivity.
Qed.

Lemma work_phase_raise (args : Namespace) (templates : list str)
    (ce : cycle_env) (w w1 : world) (e : exn) :
  work_phase args templates ce w = Raise e w1 -> is_Exception e = true.
Proof.
  rewrite work_phase_unfold.
  destruct (generate_entry templates (prefix args) (ce_utc_entry ce)
              (ce_pick ce)) eqn:Hg.
  - destruct (ce_append_ok ce).
    + match goal with |- commit_and_report ?a ?c ?x = _ -> _ =>
        pose proof (commit_and_report_spec a c x) as Hc;
        destruct (commit_and_report a c x) end;
        intros E; inversion E; subst.
      destruct Hc as [-> _]. reflexivity.
    + intros E; inversion E; reflexivity.
  - intros E; inversion E; subst. eapply generate_entry_exception; eauto.
  - discriminate.
Qed.

Lemma work_phase_beyond (args : Namespace) (templates : list str)
    (ce : cycle_env) (w : world) (g : gap) :
  work_phase args templates ce w = Beyond g -> g = OutOfFragment.
Proof.
  rewrite work_phase_unfold.
  destruct (generate_entry templates (prefix args) (ce_utc_entry ce)
              (ce_pick ce)).
  - destruct (ce_append_ok ce); [|discriminate].
    match goal with |- commit_and_report ?a ?c ?x = _ -> _ =>
      pose proof (commit_and_report_spec a c x) as Hc;
      destruct (commit_and_report a c x) end;
      try discriminate. contradiction.
  - discriminate.
  - intros E; inversion E; reflexivity.
Qed.

(** ** One pass of the loop *)

Lemma cycle_after_work (args : Namespace) (templates : list str)
    (sig : option Q) (ce : cycle_env) (w w1 : world) (o : outcome) :
  work_phase args templates ce w = Ok o w1 ->
  cycle args templates sig ce w
  = wait sig (compute_delay args (ce_draw ce)) w1.
Proof.
  intros H. unfold cycle, try_except, cycle_body. unfold bind at 1.
  rewrite H.
  destruct (wait_spec sig (compute_delay args (ce_draw ce)) w1)
    as (w' & tr & Hw & _).
  rewrite Hw. reflexivity.
Qed.

Lemma cycle_after_raise (args : Namespace) (templates : list str)
    (sig : option Q) (ce : cycle_env) (w w1 : world) (e : exn) :
  work_phase args templates ce w = Raise e w1 ->
  cycle args templates sig ce w
  = backoff 5 sig (record (Stderr (ErrorInLoop e)) w1).
Proof.
  intros H. pose proof (work_phase_raise _ _ _ _ _ _ H) as He.
  unfold cycle, try_except, cycle_body. unfold bind at 1.
  rewrite H, He. reflexivity.
Qed.

(** A pass never lets an exception out. *)
Lemma cycle_total (args : Namespace) (templates : list str)
    (sig : option Q) (ce : cycle_env) (w : world) :
  (exists w', cycle args templates sig ce w = Ok tt w')
  \/ cycle args templates sig ce w = Beyond OutOfFragment.
Proof.
  destruct (work_phase args templates ce w) as [o w1 | e w1 | g] eqn:H.
  - left. rewrite (cycle_after_work _ _ _ _ _ _ _ H).
    destruct (wait_spec sig (compute_delay args (ce_draw ce)) w1)
      as (w' & tr & Hw & _). eauto.
  - left. rewrite (cycle_after_raise _ _ _ _ _ _ _ H).
    destruct (backoff_spec sig 5 (record (Stderr (ErrorInLoop e)) w1))
      as (w' & tr & k & Hb & _). eauto.
  - right. pose proof (work_phase_beyond _ _ _ _ _ H). subst g.
    unfold cycle, try_except, cycle_body. unfold bind at 1.
    rewrite H. reflexivity.
Qed.

Lemma loop_step_cases (E : env) (s : loop_state) :
  (exists w', loop_step E s
              = Running {| ls_args := ls_args s; ls_templates := ls_templates s;
                           ls_cycle := S (ls_cycle s); ls_world := w' |}
              /\ flag_at (sigint E) (clock (ls_world s)) = false
              /\ cycle (ls_args s) (ls_templates s) (sigint E)
                       (cycles E (ls_cycle s)) (record (Poll false) (ls_world s))
                 = Ok tt w')
  \/ (loop_step E s
      = Ended (ExitStatus 0)
              (record (Stdout ExitedCleanly) (record (Poll true) (ls_world s)))
      /\ flag_at (sigint E) (clock (ls_world s)) = true)
  \/ (loop_step E s
      = Ended (NoAnswer OutOfFragment) (record (Poll false) (ls_world s))).
Proof.
  unfold loop_step, stop_signal_received.
  destruct (flag_at (sigint E) (clock (ls_world s))) eqn:Hflag.
  - right. left. split; reflexivity.
  - destruct (cycle_total (ls_args s) (ls_templates s) (sigint E)
               (cycles E (ls_cycle s)) (record (Poll false) (ls_world s)))
      as [[w' H] | H]; rewrite H.
    + left. exists w'. auto.
    + right. right. reflexivity.
Qed.

(** The loop ends only by the stop flag (exit status 0); no exception
    of a cycle ends it. *)
Lemma run_ends_cleanly (E : env) :
  forall n s how w,
    run n E s = Ended how w ->
    how = ExitStatus 0 \/ how = NoAnswer OutOfFragment.
Proof.
  induction n as [|n IH]; intros s how w H; cbn [run] in H; [discriminate|].
  destruct (loop_step_cases E s) as [(w' & Hs & _) | [(Hs & _) | Hs]];
    rewrite Hs in H.
  - eapply IH; eauto.
  - inversion H. auto.
  - inversion H. auto.
Qed.


(** C3.  When the work phase of a cycle raises an exception, the loop
    catches it, reports it on the error stream and backs off: at most
    five sleeps of one second, each after a read of the stop flag that
    found it clear, none after a read that found it set.  The loop then
    goes on to its next pass; whatever happens in later passes, the
    process ends only with exit status 0. *)
Theorem exception_in_cycle_is_absorbed
    (E : env) (s : loop_state) (e : exn) (w1 : world) :
  flag_at (sigint E) (clock (ls_world s)) = false ->
  work_phase (ls_args s) (ls_templates s) (cycles E (ls_cycle s))
             (record (Poll false) (ls_world s)) = Raise e w1 ->
  exists s' tr k,
    loop_step E s = Running s'
    /\ ls_args s' = ls_args s
    /\ ls_templates s' = ls_templates s
    /\ ls_cycle s' = S (ls_cycle s)
    /\ target (ls_world s') = target w1
    /\ trace (ls_world s') = trace w1 ++ Stderr (ErrorInLoop e) :: tr
    /\ forallb is_timing tr = true
    /\ sleeps_polled 1 None tr = true
    /\ sleeps tr = repeat 1 k
    /\ (k <= 5)%nat
    /\ (forall i, (i < k)%nat ->
          flag_at (sigint E) (clock w1 + inject_Z (Z.of_nat i)) = false)
    /\ ((k < 5)%nat ->
          flag_at (sigint E) (clock w1 + inject_Z (Z.of_nat k)) = true)
    /\ (forall n how w, run n E s' = Ended how w ->
          how = ExitStatus 0 \/ how = NoAnswer OutOfFragment).
Proof.
  intros Hflag Hwork.
  pose proof (cycle_after_raise _ _ (sigint E) _ _ _ _ Hwork) as Hcycle.
  destruct (backoff_spec (sigint E) 5 (record (Stderr (ErrorInLoop e)) w1))
    as (w' & tr & k & Hb & Htgt & Htr & Htim & Hpoll & Hsl & Hk & _ & Hclear & Hset).
  rewrite Hb in Hcycle.
  exists {| ls_args := ls_args s; ls_templates := ls_templates s;
            ls_cycle := S (ls_cycle s); ls_world := w' |}, tr, k.
  split.
  { unfold loop_step, stop_signal_received. rewrite Hflag, Hcycle. reflexivity. }
  cbn [ls_args ls_templates ls_cycle ls_world clock target trace record] in *.
  repeat (split; [first [reflexivity | assumption]|]).
  split.
  { rewrite Htr, <- app_assoc. reflexivity. }
  repeat (split; [first [assumption | apply Hpoll]|]).
  intros n how w. apply run_ends_cleanly.
Qed.

Lemma exception_in_cycle_is_absorbed_witness :
  exists w1,
    work_phase defaults DEFAULT_TEMPLATES read_only_cycle
               (record (Poll false) empty_world) = Raise OSError w1
    /\ exists s' tr k,
      loop_step (sample_env [] read_only_cycle) (sample_state empty_world)
        = Running s'
      /\ ls_args s' = defaults
      /\ ls_templates s' = DEFAULT_TEMPLATES
      /\ ls_cycle s' = 1%nat
      /\ target (ls_world s') = target w1
      /\ trace (ls_world s') = trace w1 ++ Stderr (ErrorInLoop OSError) :: tr
      /\ forallb is_timing tr = true
      /\ sleeps_polled 1 None tr = true
      /\ sleeps tr = repeat 1 k
      /\ (k <= 5)%nat
      /\ (forall i, (i < k)%nat ->
            flag_at None (clock w1 + inject_Z (Z.of_nat i)) = false)
      /\ ((k < 5)%nat ->
            flag_at None (clock w1 + inject_Z (Z.of_nat k)) = true)
      /\ (forall n how w,
            run n (sample_env [] read_only_cycle) s' = Ended how w ->
            how = ExitStatus 0 \/ how = NoAnswer OutOfFragment).
Proof.
  eexists. split; [reflexivity|].
  apply (exception_in_cycle_is_absorbed
           (sample_env [] read_only_cycle) (sample_state empty_world)).
  - reflexivity.
  - reflexivity.
Defined.

Example read_only_cycle_trace :
  exists w',
    cycle defaults DEFAULT_TEMPLATES None read_only_cycle empty_world = Ok tt w'
    /\ trace w' = [Stderr (ErrorInLoop OSError);
                   Poll false; Sleep 1; Poll false; Sleep 1; Poll false;
                   Sleep 1; Poll false; Sleep 1; Poll false; Sleep 1]
    /\ target w' = None.
Proof. eexists. split; [reflexivity | split; reflexivity]. Qed.

(** ** No commit, no push *)

Lemma existsb_false_of_forallb (p q : event -> bool) (tr : list event) :
  (forall e, q e = true -> p e = false) ->
  forallb q tr = true -> existsb p tr = false.
Proof.
  intros Hpq. induction tr as [|e tr IH]; cbn [forallb existsb];
    [reflexivity|].
  intros H. apply andb_true_iff in H as [He Ht].
  rewrite (Hpq e He), (IH Ht). reflexivity.
Qed.

Lemma quiet_git_not_push (e : event) : quiet_git e = true -> is_push e = false.
Proof.
  unfold quiet_git. intros H. apply andb_true_iff in H as [_ H].
  apply negb_true_iff in H. exact H.
Qed.

Lemma quiet_git_not_error (e : event) :
  quiet_git e = true -> is_error_report e = false.
Proof. destruct e; try discriminate. reflexivity. Qed.

Lemma timing_not_push (e : event) : is_timing e = true -> is_push e = false.
Proof. destruct e; try discriminate; reflexivity. Qed.

Lemma timing_not_error (e : event) :
  is_timing e = true -> is_error_report e = false.
Proof. destruct e; try discriminate; reflexivity. Qed.

(** Git's "nothing to commit" is a commit command that exits with a
    status other than 0: the step reports that no commit was created. *)
Lemma nothing_to_commit_reported (file_path msg : str) (nv : bool)
    (c_add c_commit : completed) (w : world) :
  returncode c_add = 0%Z -> returncode c_commit <> 0%Z ->
  exists w',
    git_stage_and_commit file_path msg nv (Ran c_add) (Ran c_commit) w
    = Ok false w'.
Proof.
  intros Ha Hc.
  unfold git_stage_and_commit, try_except, bind, run_cmd, emit, raise, ret.
  rewrite Ha. cbn.
  destruct (returncode c_commit =? 0)%Z eqn:E; [apply Z.eqb_eq in E; lia|].
  cbn. eauto.
Qed.

(** C4.  When the stage-and-commit step reports that no commit was
    created, the cycle records [committed = false], reports it, runs no
    push, raises nothing (no error is reported, the pass ends normally)
    and goes on to the wait. *)
Theorem no_commit_means_no_push
    (args : Namespace) (templates : list str) (sig : option Q)
    (ce : cycle_env) (w w2 : world) (entry : str) :
  generate_entry templates (prefix args) (ce_utc_entry ce) (ce_pick ce)
    = FOk entry ->
  ce_append_ok ce = true ->
  git_stage_and_commit (file args) (full_message args (ce_utc_msg ce))
    (no_verify args) (ce_add ce) (ce_commit ce)
    (record (AppendFile (append_data entry))
            (written (append_data entry) (at_work ce w))) = Ok false w2 ->
  work_phase args templates ce w
  = Ok {| committed := false; pushed := None |}
       (record (Stdout NoCommitCreated) w2)
  /\ exists w3 tr,
       cycle args templates sig ce w = Ok tt w3
       /\ wait sig (compute_delay args (ce_draw ce))
               (record (Stdout NoCommitCreated) w2) = Ok tt w3
       /\ trace w3 = trace w ++ tr
       /\ existsb is_push tr = false
       /\ existsb is_error_report tr = false.
Proof.
  intros Hgen Hio Hgit.
  assert (Hwork : work_phase args templates ce w
                  = Ok {| committed := false; pushed := None |}
                       (record (Stdout NoCommitCreated) w2)).
  { rewrite work_phase_unfold, Hgen, Hio.
    apply commit_and_report_no_commit. exact Hgit. }
  split; [exact Hwork|].
  destruct (git_stage_and_commit_spec (file args)
              (full_message args (ce_utc_msg ce)) (no_verify args)
              (ce_add ce) (ce_commit ce)
              (record (AppendFile (append_data entry))
                      (written (append_data entry) (at_work ce w))))
    as (w2' & trg & Hres & _ & _ & Htrg & Hq).
  assert (w2' = w2).
  { destruct Hres as [H | [H | H]]; rewrite H in Hgit; congruence. }
  subst w2'.
  destruct (wait_spec sig (compute_delay args (ce_draw ce))
              (record (Stdout NoCommitCreated) w2))
    as (w3 & trw & Hwait & _ & Htrw & Htim & _).
  exists w3, ([AppendFile (append_data entry)] ++ trg
              ++ [Stdout NoCommitCreated] ++ trw).
  split; [rewrite (cycle_after_work _ _ sig _ _ _ _ Hwork); exact Hwait|].
  split; [exact Hwait|].
  split.
  { rewrite Htrw. cbn [trace record written at_work later] in *.
    rewrite Htrg, <- !app_assoc. reflexivity. }
  split.
  - rewrite !existsb_app.
    rewrite (existsb_false_of_forallb is_push quiet_git trg quiet_git_not_push Hq).
    rewrite (existsb_false_of_forallb is_push is_timing trw timing_not_push Htim).
    reflexivity.
  - rewrite !existsb_app.
    rewrite (existsb_false_of_forallb _ quiet_git trg quiet_git_not_error Hq).
    rewrite (existsb_false_of_forallb _ is_timing trw timing_not_error Htim).
    reflexivity.
Qed.

Lemma no_commit_means_no_push_witness :
  exists w2,
    git_stage_and_commit (file defaults)
      (full_message defaults (ce_utc_msg nothing_to_commit_cycle))
      (no_verify defaults) (ce_add nothing_to_commit_cycle)
      (ce_commit nothing_to_commit_cycle)
      (record (AppendFile (append_data sample_entry))
              (written (append_data sample_entry)
                       (at_work nothing_to_commit_cycle empty_world)))
    = Ok false w2
    /\ work_phase defaults DEFAULT_TEMPLATES nothing_to_commit_cycle empty_world
        = Ok {| committed := false; pushed := None |}
             (record (Stdout NoCommitCreated) w2)
    /\ exists w3 tr,
         cycle defaults DEFAULT_TEMPLATES None nothing_to_commit_cycle
               empty_world = Ok tt w3
         /\ wait None (compute_delay defaults (ce_draw nothing_to_commit_cycle))
                 (record (Stdout NoCommitCreated) w2) = Ok tt w3
         /\ trace w3 = trace empty_world ++ tr
         /\ existsb is_push tr = false
         /\ existsb is_error_report tr = false.
Proof.
  eexists. split; [reflexivity|].
  apply (no_commit_means_no_push defaults DEFAULT_TEMPLATES None
           nothing_to_commit_cycle empty_world _ sample_entry).
  - reflexivity.
  - reflexivity.
  - reflexivity.
Defined.

(** ** Templates with an unknown placeholder *)

Lemma format_go_plain_text (ts : str) (rest : str) :
  forall pre out,
    plain_text pre = true ->
    format_go InText out ts (pre ++ rest)
    = format_go InText (rev pre ++ out) ts rest.
Proof.
  induction pre as [|c pre IH]; intros out H; [reflexivity|].
  cbn [plain_text forallb] in H. apply andb_true_iff in H as [Hc Hpre].
  apply andb_true_iff in Hc as [H1 H2].
  apply negb_true_iff in H1, H2.
  cbn [app format_go format_step]. rewrite H1, H2.
  rewrite (IH _ Hpre). cbn [rev]. rewrite <- app_assoc. reflexivity.
Qed.

Lemma field_char_name (c : N) (name_rev out ts : str) :
  name_char c = true ->
  field_char c name_rev out ts = inr (InField (c :: name_rev), out).
Proof.
  unfold name_char, field_char. intros H.
  apply andb_true_iff in H as [_ H]. apply negb_true_iff in H.
  repeat (apply orb_false_iff in H as [H ?]).
  repeat match goal with E : N.eqb _ _ = false |- _ => rewrite E; clear E end.
  reflexivity.
Qed.

Lemma format_go_field (ts : str) (rest : str) :
  forall cs name_rev out,
    forallb name_char cs = true ->
    format_go (InField name_rev) out ts (cs ++ RBRACE :: rest)
    = match resolve_field (rev name_rev ++ cs) ts with
      | FOk v => format_go InText (rev v ++ out) ts rest
      | r => r
      end.
Proof.
  induction cs as [|c cs IH]; intros name_rev out H.
  - cbn [app format_go format_step]. unfold field_char.
    rewrite N.eqb_refl, app_nil_r.
    destruct (resolve_field (rev name_rev) ts); reflexivity.
  - cbn [forallb] in H. apply andb_true_iff in H as [Hc Hcs].
    cbn [app format_go format_step]. rewrite (field_char_name _ _ _ _ Hc).
    rewrite (IH _ _ Hcs). cbn [rev]. rewrite <- app_assoc. reflexivity.
Qed.






(** The same from the command line: the line of the templates file is
    the whole pool, every cycle fails the same way, the file keeps its
    header only and git is never asked to commit. *)
Example custom_template_run :
  exists s',
    main custom_env 2 = Running s'
    /\ ls_templates s' = [lit "Fix {issue} ({ts})"]
    /\ target (ls_world s') = Some HEADER
    /\ filter is_error_report (trace (ls_world s'))
       = [Stderr (ErrorInLoop (KeyError (lit "issue")));
          Stderr (ErrorInLoop (KeyError (lit "issue")))]
    /\ filter is_file_write (trace (ls_world s')) = [CreateFile HEADER]
    /\ map (fun e => match e with Subprocess a => join [SP] a | _ => [] end)
           (filter is_subprocess (trace (ls_world s')))
       = [lit "git rev-parse --is-inside-work-tree"].
Proof.
  eexists. split; [vm_compute; reflexivity|]. vm_compute. repeat split.
Qed.

(** ** The template pool *)


(** C8 (as amended).  Loading the templates never fails and never gives
    an empty pool.  When the templates file cannot be read, a warning is
    printed and the pool is the default one; when it is read but has no
    usable line, the pool is the default one and nothing is printed. *)
Theorem templates_fall_back_to_defaults
    (args : Namespace) (r : read_result) (w : world) :
  exists pool w',
    load_templates args r w = Ok pool w'
    /\ pool <> []
    /\ target w' = target w
    /\ (forall path f,
          templates_file args = Some path -> nonempty path = true ->
          r = ReadFails f ->
          pool = DEFAULT_TEMPLATES
          /\ trace w' = trace w
                        ++ [Stdout (TemplatesWarning path (exn_of_fault f))])
    /\ (forall path text,
          templates_file args = Some path -> nonempty path = true ->
          r = ReadText text ->
          trace w' = trace w
          /\ (usable_lines text = [] -> pool = DEFAULT_TEMPLATES)
          /\ (usable_lines text <> [] -> pool = usable_lines text)).
Proof.
  unfold load_templates.
  destruct (templates_file args) as [path|].
  - destruct (nonempty path) eqn:Hp.
    + destruct r as [text | f].
      * unfold try_except, bind, open_read, ret.
        destruct (usable_lines text) as [|l ls] eqn:Hu.
        -- exists DEFAULT_TEMPLATES, w.
           split; [reflexivity|]. split; [discriminate|].
           split; [reflexivity|]. split; [discriminate|].
           intros path' text' _ _ E. inversion E; subst. rewrite Hu.
           split; [reflexivity|]. split; [reflexivity | congruence].
        -- exists (l :: ls), w.
           split; [reflexivity|]. split; [discriminate|].
           split; [reflexivity|]. split; [discriminate|].
           intros path' text' _ _ E. inversion E; subst. rewrite Hu.
           split; [reflexivity|]. split; [discriminate | reflexivity].
      * unfold try_except, bind, open_read, raise, print, emit, ret.
        assert (He : is_Exception (exn_of_fault f) = true)
          by (destruct f; reflexivity).
        rewrite He. cbn beta iota.
        exists DEFAULT_TEMPLATES,
          (record (Stdout (TemplatesWarning path (exn_of_fault f))) w).
        split; [reflexivity|]. split; [discriminate|].
        split; [reflexivity|]. split; [|discriminate].
        intros path' f' E1 _ E2. inversion E1; inversion E2; subst.
        split; reflexivity.
    + exists DEFAULT_TEMPLATES, w. unfold ret.
      split; [reflexivity|]. split; [discriminate|].
      split; [reflexivity|].
      split; intros ? ? E1 E2; inversion E1; subst; congruence.
  - exists DEFAULT_TEMPLATES, w. unfold ret.
    split; [reflexivity|]. split; [discriminate|].
    split; [reflexivity|]. split; discriminate.
Qed.

Lemma templates_fall_back_to_defaults_witness :
  exists pool w',
    load_templates templates_args (ReadFails CannotOpen) empty_world
    = Ok pool w'
    /\ pool = DEFAULT_TEMPLATES
    /\ trace w' = [] ++ [Stdout (TemplatesWarning (lit "t.txt") OSError)].
Proof.
  destruct (templates_fall_back_to_defaults templates_args
              (ReadFails CannotOpen) empty_world)
    as (pool & w' & H1 & _ & _ & Hf & _).
  destruct (Hf (lit "t.txt") CannotOpen eq_refl eq_refl eq_refl) as [Hp Ht].
  exists pool, w'. auto.
Defined.

(** C8 fails as stated: a templates file with blank lines only is read
    without an error, so no warning is printed; the pool is the default
    one. *)
Lemma blank_templates_file_gives_no_warning :
  usable_lines (lit "   " ++ [NL; NL]) = []
  /\ exists w',
       load_templates templates_args (ReadText (lit "   " ++ [NL; NL]))
                      empty_world = Ok DEFAULT_TEMPLATES w'
       /\ existsb is_warning (trace w') = false.
Proof. split; [reflexivity|]. eexists. split; reflexivity. Qed.

(** ** Startup *)








(** ** The command line *)

Example parse_interval_and_jitter :
  parse_args [lit "--file"; lit ".github/notes.md"; lit "--interval";
              lit "900"; lit "--randomize"]
  = Parsed (set_randomize true
              (set_interval 900 (set_file (lit ".github/notes.md") defaults))).
Proof. reflexivity. Qed.

Example parse_negative_interval :
  parse_args [lit "-i"; lit "-5"] = Parsed (set_interval (-5) defaults).
Proof. reflexivity. Qed.

Example parse_abbreviation :
  parse_args [lit "--no"] = Parsed (set_no_verify true defaults)
  /\ parse_args [lit "--r"] = UsageError (Ambiguous (lit "--r")).
Proof. split; reflexivity. Qed.

Example parse_bad_interval :
  parse_args [lit "--interval"; lit "x"] = UsageError (InvalidInt (lit "x")).
Proof. reflexivity. Qed.

(** C6, the code at the inputs of the claim.  The parser knows one option
    string, [--push/--no-push], which takes a value: [--no-push] is an
    unknown argument and [--push] alone lacks its value, so both end the
    process with a usage error.  Without either, [push] is [True]. *)
Theorem push_flags_as_parsed :
  parse_args [lit "--no-push"] = UsageError (Unrecognized [lit "--no-push"])
  /\ parse_args [lit "--interval"; lit "1800"; lit "--no-push"]
     = UsageError (Unrecognized [lit "--no-push"])
  /\ parse_args [lit "--push"] = UsageError (ExpectedOneArgument DPush)
  /\ parse_args [] = Parsed defaults
  /\ push defaults = PyBool true
  /\ parse_args [lit "--push/--no-push"; lit "no"]
     = Parsed (set_push (PyStr (lit "no")) defaults)
  /\ truthy (PyStr (lit "no")) = true.
Proof. repeat split; reflexivity. Qed.

Lemma store_keeps_push_not_False (d : dest) (v : str) (ns ns' : Namespace) :
  push_not_False ns -> store d v ns = inr (Some ns') -> push_not_False ns'.
Proof.
  unfold push_not_False. intros H.
  destruct d; cbn; intros E; try discriminate;
    try (inversion E; subst; cbn; first [exact H | discriminate]).
  destruct (parse_int v); inversion E; subst; exact H.
Qed.

Lemma store_true_keeps_push_not_False (d : dest) (ns : Namespace) :
  push_not_False ns -> push_not_False (store_true d ns).
Proof. unfold push_not_False. destruct d; cbn; auto. Qed.

Lemma consume_keeps_push_not_False :
  forall n toks ns extras ns',
    (List.length toks <= n)%nat ->
    push_not_False ns ->
    consume toks ns extras = Parsed ns' -> push_not_False ns'.
Proof.
  induction n as [|n IH]; intros toks ns extras ns' Hlen Hns H.
  - destruct toks; [|cbn in Hlen; lia]. cbn in H.
    destruct extras; inversion H; subst; exact Hns.
  - destruct toks as [|[a t] rest].
    + cbn in H. destruct extras; inversion H; subst; exact Hns.
    + cbn [List.length] in Hlen. cbn [consume] in H.
      destruct t as [|[d|] explicit].
      * apply (IH rest ns (a :: extras) ns'); [lia | exact Hns | exact H].
      * destruct (kind_of d).
        -- destruct explicit as [v|].
           ++ destruct (store d v ns) as [e|[ns1|]] eqn:Hs; try discriminate.
              apply (IH rest ns1 extras ns'); [lia | | exact H].
              eapply store_keeps_push_not_False; eauto.
           ++ destruct rest as [|[v [|? ?]] rest']; try discriminate.
              destruct (store d v ns) as [e|[ns1|]] eqn:Hs; try discriminate.
              cbn [List.length] in Hlen.
              apply (IH rest' ns1 extras ns'); [lia | | exact H].
              eapply store_keeps_push_not_False; eauto.
        -- destruct explicit; [discriminate|].
           apply (IH rest (store_true d ns) extras ns'); [lia | | exact H].
           apply store_true_keeps_push_not_False. exact Hns.
        -- discriminate.
      * apply (IH rest ns (a :: extras) ns'); [lia | exact Hns | exact H].
Qed.

(** No command line makes [args.push] the boolean [False]. *)
Lemma push_never_False (argv : list str) (ns : Namespace) :
  parse_args argv = Parsed ns -> push ns <> PyBool false.
Proof.
  unfold parse_args.
  destruct (classify_all argv) as [[| |]|toks]; try discriminate.
  intros H.
  eapply (consume_keeps_push_not_False (List.length toks)); eauto.
  unfold push_not_False. cbn. discriminate.
Qed.

(** ** The target file *)

Lemma written_contents (data : str) (w : world) :
  target (written data w) = Some (contents w ++ data).
Proof. unfold written, contents. cbn. destruct (target w); reflexivity. Qed.



(** ** The templates [main] can load *)

Lemma forallb_dropwhile (P p : N -> bool) (s : str) :
  forallb P s = true -> forallb P (dropwhile p s) = true.
Proof.
  induction s as [|c s IH]; cbn [dropwhile forallb]; [reflexivity|].
  intros H. destruct (p c); [|exact H].
  apply andb_true_iff in H as [_ H]. auto.
Qed.

Lemma rstrip_no_newline (s : str) :
  forallb not_newline s = true -> forallb not_newline (rstrip s) = true.
Proof.
  intros H. unfold rstrip. rewrite forallb_rev.
  apply forallb_dropwhile. rewrite forallb_rev. exact H.
Qed.

Lemma rstrip_newline (s : str) : rstrip (s ++ [NL]) = rstrip s.
Proof. unfold rstrip. rewrite rev_app_distr. reflexivity. Qed.

Lemma lstrip_newline (s : str) :
  lstrip (s ++ [NL])
  = match lstrip s with [] => [] | t => t ++ [NL] end.
Proof.
  unfold lstrip. induction s as [|c s IH]; [reflexivity|].
  cbn [app dropwhile]. destruct (isspace c); [exact IH | reflexivity].
Qed.

Lemma strip_no_newline (body : str) :
  forallb not_newline body = true ->
  forallb not_newline (strip body) = true
  /\ forallb not_newline (strip (body ++ [NL])) = true.
Proof.
  intros H.
  assert (Hl : forallb not_newline (lstrip body) = true)
    by (apply forallb_dropwhile; exact H).
  split.
  - unfold strip. apply rstrip_no_newline. exact Hl.
  - unfold strip. rewrite lstrip_newline.
    destruct (lstrip body) as [|c t] eqn:E; [reflexivity|].
    rewrite rstrip_newline. apply rstrip_no_newline. exact Hl.
Qed.

(** A line of [split_lines] holds a newline at its end at most. *)
Lemma split_lines_shape :
  forall s cur l,
    forallb not_newline cur = true ->
    In l (split_lines cur s) ->
    exists body,
      forallb not_newline body = true /\ (l = body ++ [NL] \/ l = body).
Proof.
  induction s as [|c s IH]; intros cur l Hcur Hin; cbn [split_lines] in Hin.
  - destruct cur as [|x cur]; [contradiction|].
    destruct Hin as [<- | []].
    exists (rev (x :: cur)). rewrite forallb_rev. auto.
  - destruct (N.eqb c NL) eqn:Ec.
    + apply N.eqb_eq in Ec. subst c. destruct Hin as [<- | Hin].
      * exists (rev cur). rewrite forallb_rev. cbn [rev]. auto.
      * apply (IH [] l eq_refl Hin).
    + apply (IH (c :: cur) l); [|exact Hin].
      cbn [forallb]. unfold not_newline at 1. rewrite Ec. exact Hcur.
Qed.

Lemma usable_lines_no_newline (text : str) (t : str) :
  In t (usable_lines text) -> forallb not_newline t = true.
Proof.
  unfold usable_lines, readlines. intros H.
  apply in_map_iff in H as (l & <- & Hl).
  apply filter_In in Hl as [Hl _].
  destruct (split_lines_shape _ [] l eq_refl Hl) as (body & Hb & [-> | ->]);
    apply (strip_no_newline body Hb).
Qed.




(** ** Entries and the file *)







(** The first pass in a fresh repository: header, one entry, one commit
    with the timestamped message, one push. *)
Example fresh_repository_first_cycle :
  exists s',
    main (sample_env [lit "--interval"; lit "10"] good_cycle) 1 = Running s'
    /\ target (ls_world s') = Some (HEADER ++ sample_entry)
    /\ map (fun e => match e with Subprocess a => join [SP] a | _ => [] end)
           (filter is_subprocess (trace (ls_world s')))
       = [ lit "git rev-parse --is-inside-work-tree";
           lit "git add -- TODO.md";
           lit "git commit -m chore: micro update " ++ [EM_DASH]
             ++ lit " 2024-05-17T09:30:00Z";
           lit "git push" ]
    /\ sleeps (trace (ls_world s')) = repeat 1 10
    /\ clock (ls_world s') == (1 # 4) + 10.
Proof.
  eexists. split; [vm_compute; reflexivity|]. vm_compute. repeat split.
Qed.

(* ================================================================== *)
(** * More of the program                                              *)
(* ================================================================== *)

(** ** Stripping *)

Lemma dropwhile_idempotent (p : N -> bool) (s : str) :
  dropwhile p (dropwhile p s) = dropwhile p s.
Proof.
  induction s as [|c s IH]; cbn [dropwhile]; [reflexivity|].
  destruct (p c) eqn:E; [exact IH|]. cbn [dropwhile]. rewrite E. reflexivity.
Qed.

Lemma dropwhile_app_stop (p : N -> bool) (a b : str) (c : N) :
  p c = false -> dropwhile p (a ++ c :: b) = dropwhile p a ++ c :: b.
Proof.
  intros Hc. induction a as [|x a IH]; cbn [app dropwhile].
  - rewrite Hc. reflexivity.
  - destruct (p x); [exact IH | reflexivity].
Qed.

Lemma rstrip_cons (c : N) (s : str) :
  isspace c = false -> rstrip (c :: s) = c :: rstrip s.
Proof.
  intros Hc. unfold rstrip. cbn [rev].
  rewrite (dropwhile_app_stop isspace (rev s) [] c Hc).
  rewrite rev_app_distr. reflexivity.
Qed.

Lemma rstrip_idempotent (s : str) : rstrip (rstrip s) = rstrip s.
Proof.
  unfold rstrip. rewrite rev_involutive, dropwhile_idempotent. reflexivity.
Qed.

Lemma lstrip_head (s : str) :
  match lstrip s with
  | [] => True
  | c :: _ => isspace c = false
  end.
Proof.
  unfold lstrip. induction s as [|c s IH]; cbn [dropwhile]; [exact I|].
  destruct (isspace c) eqn:E; [exact IH | exact E].
Qed.

(** What [strip] gives starts and ends with something other than white
    space, and stripping it again changes nothing. *)
Lemma strip_idempotent (s : str) : strip (strip s) = strip s.
Proof.
  unfold strip. pose proof (lstrip_head s) as Hh.
  destruct (lstrip s) as [|c t]; [reflexivity|].
  rewrite (rstrip_cons c t Hh).
  unfold lstrip at 1. cbn [dropwhile]. rewrite Hh.
  rewrite <- (rstrip_cons c t Hh). apply rstrip_idempotent.
Qed.

Lemma strip_ends (s : str) :
  match strip s with
  | [] => True
  | c :: _ => isspace c = false
  end
  /\ match rev (strip s) with
     | [] => True
     | c :: _ => isspace c = false
     end.
Proof.
  split.
  - unfold strip. pose proof (lstrip_head s) as Hh.
    destruct (lstrip s) as [|c t]; [exact I|].
    rewrite (rstrip_cons c t Hh). exact Hh.
  - unfold strip, rstrip. rewrite rev_involutive.
    induction (rev (lstrip s)) as [|c r IH]; cbn [dropwhile]; [exact I|].
    destruct (isspace c) eqn:E; [exact IH | exact E].
Qed.

(** X1.  The templates read from a file.  Every line [load_templates]
    keeps is not empty, holds no newline, neither starts nor ends with
    white space, and is left as it is by another [strip]. *)
Theorem usable_lines_are_stripped (text t : str) :
  In t (usable_lines text) ->
  nonempty t = true
  /\ strip t = t
  /\ forallb not_newline t = true
  /\ (forall c r, t = c :: r -> isspace c = false)
  /\ (forall c r, rev t = c :: r -> isspace c = false).
Proof.
  intros Hin. pose proof (usable_lines_no_newline text t Hin) as Hnl.
  unfold usable_lines in Hin.
  apply in_map_iff in Hin as (l & <- & Hl).
  apply filter_In in Hl as [_ Hne].
  destruct (strip_ends l) as [Hfirst Hlast].
  split; [exact Hne|]. split; [apply strip_idempotent|].
  split; [exact Hnl|]. split.
  - intros c r E. rewrite E in Hfirst. exact Hfirst.
  - intros c r E. rewrite E in Hlast. exact Hlast.
Qed.

Lemma usable_lines_are_stripped_witness :
  nonempty (lit "X {ts}") = true
  /\ strip (lit "X {ts}") = lit "X {ts}"
  /\ forallb not_newline (lit "X {ts}") = true
  /\ (forall c r, lit "X {ts}" = c :: r -> isspace c = false)
  /\ (forall c r, rev (lit "X {ts}") = c :: r -> isspace c = false).
Proof.
  apply (usable_lines_are_stripped
           (lit "  X {ts}  " ++ [CR; NL; NL] ++ lit "   " ++ [NL])
           (lit "X {ts}")).
  vm_compute. left. reflexivity.
Defined.

(** ** The git helpers, case by case *)

Lemma git_commands_app (a b : list event) :
  git_commands (a ++ b) = git_commands a ++ git_commands b.
Proof.
  induction a as [|e a IH]; [reflexivity|].
  destruct e; cbn [app git_commands]; rewrite IH; reflexivity.
Qed.

(** [git_stage_and_commit]: [git commit] is run only after [git add]
    exited with 0; the answer is [True] exactly when both exited with 0;
    a non-zero exit of either gives [False]; when git cannot be started
    the [OSError] leaves the helper. *)
Lemma git_stage_and_commit_table (file_path msg : str) (nv : bool)
    (p_add p_commit : proc) (w : world) :
  let w1 := record (Subprocess [lit "git"; lit "add"; lit "--"; file_path]) w in
  let w2 := record (Subprocess (commit_command msg nv)) w1 in
  git_stage_and_commit file_path msg nv p_add p_commit w
  = if negb (started p_add) then Raise OSError w1
    else if negb (succeeded p_add) then Ok false w1
    else if negb (started p_commit) then Raise OSError w2
    else Ok (succeeded p_commit) w2.
Proof.
  unfold git_stage_and_commit, commit_command, try_except, bind, run_cmd,
    emit, raise, ret, started, succeeded.
  destruct p_add as [ca|]; cbn; [|reflexivity].
  destruct (returncode ca =? 0)%Z; cbn; [|reflexivity].
  destruct p_commit as [cc|]; cbn; [|reflexivity].
  destruct (returncode cc =? 0)%Z; reflexivity.
Qed.

(** [git_push] answers [True] exactly when [git push] exited with 0,
    [False] on any other exit, and lets the [OSError] out when git cannot
    be started. *)
Lemma git_push_table (p : proc) (w : world) :
  let w1 := record (Subprocess [lit "git"; lit "push"]) w in
  git_push p w
  = if started p then Ok (succeeded p) w1 else Raise OSError w1.
Proof.
  unfold git_push, try_except, bind, run_cmd, emit, raise, ret, started,
    succeeded.
  destruct p as [c|]; cbn; [|reflexivity].
  destruct (returncode c =? 0)%Z; reflexivity.
Qed.

(** X2.  The git commands of a cycle.  A cycle that reaches the staging
    runs [git add], then [git commit] only if the add exited with 0, then
    [git push] only if the commit exited with 0 too and [args.push] is
    true; it reports [committed] and [pushed] accordingly, and fails
    (with [OSError]) only when one of the commands it runs cannot be
    started. *)
Theorem cycle_git_commands (args : Namespace) (ce : cycle_env) (w : world) :
  let add := [lit "git"; lit "add"; lit "--"; file args] in
  let commit := commit_command (full_message args (ce_utc_msg ce))
                               (no_verify args) in
  let is_committed := succeeded (ce_add ce) && succeeded (ce_commit ce) in
  let pushing := is_committed && truthy (push args) in
  let all_started :=
    started (ce_add ce)
    && (negb (succeeded (ce_add ce)) || started (ce_commit ce))
    && (negb pushing || started (ce_push ce)) in
  let commands :=
    add :: (if succeeded (ce_add ce) then [commit] else [])
        ++ (if pushing then [[lit "git"; lit "push"]] else []) in
  match commit_and_report args ce w with
  | Ok o w' =>
      all_started = true
      /\ committed o = is_committed
      /\ pushed o = (if pushing then Some (succeeded (ce_push ce)) else None)
      /\ git_commands (trace w') = git_commands (trace w) ++ commands
  | Raise e w' =>
      e = OSError /\ all_started = false
      /\ exists n, git_commands (trace w')
                   = git_commands (trace w) ++ firstn n commands
  | Beyond _ => False
  end.
Proof.
  cbv zeta. unfold commit_and_report. unfold bind at 1.
  rewrite git_stage_and_commit_table. cbv zeta.
  destruct (ce_add ce) as [ca|]; cbn [started succeeded negb andb orb].
  2:{ split; [reflexivity|]. split; [reflexivity|]. exists 1%nat.
      cbn [trace record firstn]. rewrite git_commands_app. reflexivity. }
  destruct (returncode ca =? 0)%Z; cbn [negb andb orb].
  2:{ unfold bind, print, emit, ret. cbn [committed pushed trace record].
      rewrite !git_commands_app. cbn [git_commands app].
      rewrite app_nil_r. auto. }
  destruct (ce_commit ce) as [cc|]; cbn [started succeeded negb andb orb].
  2:{ split; [reflexivity|]. split; [reflexivity|]. exists 2%nat.
      cbn [trace record firstn app]. rewrite !git_commands_app, <- app_assoc.
      reflexivity. }
  destruct (returncode cc =? 0)%Z; cbn [negb andb orb].
  2:{ unfold bind, print, emit, ret. cbn [committed pushed trace record].
      rewrite !git_commands_app. cbn [git_commands app].
      rewrite app_nil_r, <- app_assoc. auto. }
  unfold print, emit. unfold bind at 1.
  destruct (truthy (push args)); cbn [negb andb orb].
  2:{ unfold ret. cbn [committed pushed trace record].
      rewrite !git_commands_app. cbn [git_commands app].
      rewrite app_nil_r, <- app_assoc. auto. }
  unfold bind at 1. rewrite git_push_table. cbv zeta.
  destruct (ce_push ce) as [cp|]; cbn [started succeeded].
  - unfold bind, ret.
    destruct (returncode cp =? 0)%Z; cbn [committed pushed trace record];
      rewrite !git_commands_app; cbn [git_commands app];
      rewrite ?app_nil_r, <- !app_assoc; auto.
  - split; [reflexivity|]. split; [reflexivity|]. exists 3%nat.
    cbn [trace record firstn app]. rewrite !git_commands_app.
    cbn [git_commands app]. rewrite ?app_nil_r, <- !app_assoc. reflexivity.
Qed.

(** X3.  A failed push.  When the commit is made and [git push] exits
    with a status other than 0, the cycle reports the commit and the
    failed push, reports no error, keeps the entry in the file and goes
    on to the wait. *)
Theorem failed_push_is_only_reported
    (args : Namespace) (templates : list str) (sig : option Q)
    (ce : cycle_env) (w : world) (entry : str) :
  generate_entry templates (prefix args) (ce_utc_entry ce) (ce_pick ce)
    = FOk entry ->
  ce_append_ok ce = true ->
  succeeded (ce_add ce) = true ->
  succeeded (ce_commit ce) = true ->
  truthy (push args) = true ->
  started (ce_push ce) = true ->
  succeeded (ce_push ce) = false ->
  exists w1 w',
    work_phase args templates ce w
    = Ok {| committed := true; pushed := Some false |} w1
    /\ (exists tr, trace w1
          = tr ++ [Stdout (Committed (isoformat_seconds (ce_now ce))
                                     (full_message args (ce_utc_msg ce)));
                   Subprocess [lit "git"; lit "push"];
                   Stdout (PushFailed (isoformat_seconds (ce_now ce)))])
    /\ cycle args templates sig ce w = Ok tt w'
    /\ wait sig (compute_delay args (ce_draw ce)) w1 = Ok tt w'
    /\ target w' = Some (contents w ++ entry)
    /\ existsb is_error_report (skipn (List.length (trace w)) (trace w'))
       = false.
Proof.
  intros Hgen Hio Hadd Hcommit Hpush Hstart Hfail.
  pose proof (work_phase_unfold args templates ce w) as Hw.
  rewrite Hgen, Hio in Hw.
  set (w0 := record (AppendFile (append_data entry))
                    (written (append_data entry) (at_work ce w))) in *.
  set (now := isoformat_seconds (ce_now ce)).
  set (msg := full_message args (ce_utc_msg ce)).
  assert (Hcr : commit_and_report args ce w0
    = Ok {| committed := true; pushed := Some false |}
         (record (Stdout (PushFailed now))
            (record (Subprocess [lit "git"; lit "push"])
               (record (Stdout (Committed now msg))
                  (record (Subprocess (commit_command msg (no_verify args)))
                     (record (Subprocess [lit "git"; lit "add"; lit "--";
                                          file args]) w0)))))).
  { unfold commit_and_report. unfold bind at 1.
    rewrite git_stage_and_commit_table. cbv zeta.
    destruct (ce_add ce) as [ca|]; [|discriminate].
    destruct (ce_commit ce) as [cc|]; [|discriminate].
    cbn [started succeeded negb] in *. rewrite Hadd, Hcommit. cbn [negb].
    unfold print, emit. unfold bind at 1. rewrite Hpush.
    unfold bind at 1. rewrite git_push_table. cbv zeta.
    rewrite Hstart, Hfail. reflexivity. }
  rewrite Hcr in Hw.
  destruct (generate_entry_ok _ _ _ _ _ Hgen) as (templ & line & _ & _ & He).
  assert (Hterm : append_data entry = entry).
  { apply append_data_of_terminated. rewrite He, entry_shape_trailing. lia. }
  match type of Hw with _ = Ok _ ?x => set (w1 := x) in * end.
  destruct (wait_spec sig (compute_delay args (ce_draw ce)) w1)
    as (w' & trw & Hwait & Htgt & Htrw & Htim & _).
  exists w1, w'.
  split; [exact Hw|]. split.
  { exists (trace w0 ++ [Subprocess [lit "git"; lit "add"; lit "--"; file args];
                         Subprocess (commit_command msg (no_verify args))]).
    unfold w1. cbn [trace record]. rewrite <- !app_assoc. reflexivity. }
  split; [rewrite (cycle_after_work _ _ sig _ _ _ _ Hw); exact Hwait|].
  split; [exact Hwait|]. split.
  { rewrite Htgt. unfold w1, w0. cbn [target record].
    rewrite written_contents, Hterm. reflexivity. }
  rewrite Htrw. unfold w1, w0. cbn [trace record written at_work later].
  rewrite <- !app_assoc, skipn_app, skipn_all, Nat.sub_diag.
  cbn [skipn app existsb is_error_report orb].
  apply (existsb_false_of_forallb _ is_timing trw timing_not_error Htim).
Qed.

Lemma failed_push_is_only_reported_witness :
  exists w1 w',
    work_phase (set_interval 2 defaults) DEFAULT_TEMPLATES push_fails_cycle empty_world
    = Ok {| committed := true; pushed := Some false |} w1
    /\ (exists tr, trace w1
          = tr ++ [Stdout (Committed
                             (isoformat_seconds (ce_now push_fails_cycle))
                             (full_message (set_interval 2 defaults)
                                (ce_utc_msg push_fails_cycle)));
                   Subprocess [lit "git"; lit "push"];
                   Stdout (PushFailed
                             (isoformat_seconds (ce_now push_fails_cycle)))])
    /\ cycle (set_interval 2 defaults) DEFAULT_TEMPLATES None push_fails_cycle empty_world
       = Ok tt w'
    /\ wait None (compute_delay (set_interval 2 defaults) (ce_draw push_fails_cycle)) w1
       = Ok tt w'
    /\ target w' = Some (contents empty_world ++ sample_entry)
    /\ existsb is_error_report
         (skipn (List.length (trace empty_world)) (trace w')) = false.
Proof.
  apply (failed_push_is_only_reported (set_interval 2 defaults)
           DEFAULT_TEMPLATES None
           push_fails_cycle empty_world sample_entry);
    vm_compute; reflexivity.
Defined.

(** ** The repository checks *)

Lemma is_git_repo_eq (p : proc) (w : world) :
  is_git_repo p w
  = Ok (repo_ok p)
       (record (Subprocess [lit "git"; lit "rev-parse";
                            lit "--is-inside-work-tree"]) w).
Proof.
  unfold is_git_repo, try_except, bind, run_cmd, emit, raise, ret, repo_ok.
  destruct p as [c|]; cbn; [|reflexivity].
  destruct (returncode c =? 0)%Z; reflexivity.
Qed.

(** X4.  [is_git_repo] never raises: it answers [True] when
    [git rev-parse] exits with 0 and prints [true] (white space aside),
    and [False] in every other case, also when git cannot be started. *)
Theorem is_git_repo_answer (p : proc) (w : world) :
  (exists b,
     is_git_repo p w
     = Ok b (record (Subprocess [lit "git"; lit "rev-parse";
                                 lit "--is-inside-work-tree"]) w)
     /\ (b = true <->
         exists c, p = Ran c /\ returncode c = 0%Z
                   /\ strip (stdout c) = lit "true"))
  /\ (forall e w', is_git_repo p w <> Raise e w').
Proof.
  rewrite is_git_repo_eq. split; [|discriminate].
  exists (repo_ok p). split; [reflexivity|].
  unfold repo_ok. destruct p as [c|].
  - rewrite andb_true_iff, Z.eqb_eq, str_eqb_eq. split.
    + intros [H1 H2]. exists c. auto.
    + intros (c' & E & H1 & H2). inversion E; subst. auto.
  - split; [discriminate|]. intros (c' & E & _). discriminate.
Qed.

Lemma is_git_repo_answer_witness :
  is_git_repo (Ran (mkCompleted 0 (lit " true" ++ [NL]))) empty_world
  = Ok true (record (Subprocess [lit "git"; lit "rev-parse";
                                 lit "--is-inside-work-tree"]) empty_world).
Proof.
  destruct (is_git_repo_answer (Ran (mkCompleted 0 (lit " true" ++ [NL])))
              empty_world) as [(b & Heq & Hb) _].
  rewrite Heq. f_equal. apply Hb.
  exists (mkCompleted 0 (lit " true" ++ [NL])).
  split; [reflexivity|]. split; reflexivity.
Defined.

(** X5.  [current_branch], unlike [is_git_repo], lets the failure of git
    out: [RuntimeError] on an exit status other than 0, [OSError] when
    git cannot be started.  What it returns otherwise is git's output
    without white space around it. *)
Theorem current_branch_answer (p : proc) (w : world) :
  let cmd := [lit "git"; lit "rev-parse"; lit "--abbrev-ref"; lit "HEAD"] in
  current_branch p w
  = match p with
    | NotStarted => Raise OSError (record (Subprocess cmd) w)
    | Ran c =>
        if (returncode c =? 0)%Z
        then Ok (strip (stdout c)) (record (Subprocess cmd) w)
        else Raise (RuntimeError cmd) (record (Subprocess cmd) w)
    end
  /\ (forall b w', current_branch p w = Ok b w' ->
        succeeded p = true /\ strip b = b).
Proof.
  cbv zeta.
  assert (Heq : current_branch p w
    = match p with
      | NotStarted =>
          Raise OSError (record (Subprocess [lit "git"; lit "rev-parse";
                                   lit "--abbrev-ref"; lit "HEAD"]) w)
      | Ran c =>
          if (returncode c =? 0)%Z
          then Ok (strip (stdout c))
                  (record (Subprocess [lit "git"; lit "rev-parse";
                                       lit "--abbrev-ref"; lit "HEAD"]) w)
          else Raise (RuntimeError [lit "git"; lit "rev-parse";
                                    lit "--abbrev-ref"; lit "HEAD"])
                     (record (Subprocess [lit "git"; lit "rev-parse";
                                          lit "--abbrev-ref"; lit "HEAD"]) w)
      end).
  { unfold current_branch, bind, run_cmd, emit, raise, ret.
    destruct p as [c|]; cbn; [|reflexivity].
    destruct (returncode c =? 0)%Z; reflexivity. }
  split; [exact Heq|].
  intros b w' H. rewrite Heq in H.
  destruct p as [c|]; [|discriminate]. cbn [succeeded].
  destruct (returncode c =? 0)%Z; [|discriminate].
  inversion H; subst. split; [reflexivity | apply strip_idempotent].
Qed.

Lemma current_branch_answer_witness :
  succeeded (Ran (mkCompleted 0 (lit "main" ++ [NL]))) = true
  /\ strip (lit "main") = lit "main".
Proof.
  apply (proj2 (current_branch_answer
                  (Ran (mkCompleted 0 (lit "main" ++ [NL]))) empty_world)
           (lit "main")
           (record (Subprocess [lit "git"; lit "rev-parse";
                                lit "--abbrev-ref"; lit "HEAD"]) empty_world)).
  reflexivity.
Defined.

(** ** Appending *)

Lemma endswith_app_newline (s : str) : endswith (s ++ [NL]) [NL] = true.
Proof.
  unfold endswith. rewrite rev_app_distr. cbn [rev app startswith].
  rewrite N.eqb_refl. destruct (rev s); reflexivity.
Qed.

(** X6.  [append_entry] writes the entry with a newline added when the
    entry does not end in one: what it writes always ends in a newline,
    starts with the entry and is at most one character longer; the file
    keeps what it held, and is created when it does not exist.  When the
    file cannot be opened nothing is written. *)
Theorem append_entry_ends_the_line (entry : str) (w : world) :
  append_entry entry true w
  = Ok tt (record (AppendFile (append_data entry))
                  (written (append_data entry) w))
  /\ target (written (append_data entry) w)
     = Some (contents w ++ append_data entry)
  /\ endswith (append_data entry) [NL] = true
  /\ (endswith entry [NL] = true -> append_data entry = entry)
  /\ (endswith entry [NL] = false -> append_data entry = entry ++ [NL])
  /\ append_data (append_data entry) = append_data entry
  /\ append_entry entry false w = Raise OSError w.
Proof.
  assert (Hend : endswith (append_data entry) [NL] = true).
  { unfold append_data. destruct (endswith entry [NL]) eqn:E.
    - rewrite app_nil_r. exact E.
    - apply endswith_app_newline. }
  split; [reflexivity|]. split; [apply written_contents|].
  split; [exact Hend|]. split.
  { intros E. unfold append_data. rewrite E. apply app_nil_r. }
  split.
  { intros E. unfold append_data. rewrite E. reflexivity. }
  split; [|reflexivity].
  unfold append_data at 1. rewrite Hend. apply app_nil_r.
Qed.

Lemma append_entry_ends_the_line_witness :
  append_data (lit "- NOTE: no newline") = lit "- NOTE: no newline" ++ [NL]
  /\ append_data sample_entry = sample_entry.
Proof.
  destruct (append_entry_ends_the_line (lit "- NOTE: no newline") empty_world)
    as (_ & _ & _ & _ & H1 & _).
  destruct (append_entry_ends_the_line sample_entry empty_world)
    as (_ & _ & _ & H2 & _).
  split; [apply H1 | apply H2]; reflexivity.
Defined.

(** ** The directory of the target file *)

Lemma dropwhile_to_slash (s : str) :
  existsb (N.eqb SLASH) s = true ->
  exists r, dropwhile (fun c => negb (N.eqb c SLASH)) s = SLASH :: r.
Proof.
  induction s as [|c s IH]; cbn [existsb dropwhile]; [discriminate|].
  destruct (N.eqb c SLASH) eqn:E.
  - apply N.eqb_eq in E. subst c. cbn [negb]. eauto.
  - rewrite N.eqb_sym, E. cbn [negb orb]. exact IH.
Qed.

Lemma dropwhile_not_all (p : N -> bool) (s : str) :
  forallb p s = false -> nonempty (dropwhile p s) = true.
Proof.
  induction s as [|c s IH]; cbn [forallb dropwhile]; [discriminate|].
  destruct (p c); [exact IH | reflexivity].
Qed.

Lemma existsb_rev (p : N -> bool) (s : str) :
  existsb p (rev s) = existsb p s.
Proof.
  induction s as [|c s IH]; [reflexivity|].
  cbn [rev existsb]. rewrite existsb_app, IH. cbn [existsb].
  rewrite orb_false_r. apply orb_comm.
Qed.

Lemma nonempty_rev (s : str) : nonempty (rev s) = nonempty s.
Proof.
  destruct s as [|c s]; [reflexivity|]. cbn [rev].
  destruct (rev s); reflexivity.
Qed.

(** The directory name of a path with a slash in it is not empty. *)
Lemma dirname_of_path_with_slash (p : str) :
  existsb (N.eqb SLASH) p = true -> makes_directory p = true.
Proof.
  intros H. unfold makes_directory, dirname.
  rewrite <- existsb_rev in H.
  destruct (dropwhile_to_slash (rev p) H) as [r Hr]. rewrite Hr.
  set (head := rev (SLASH :: r)).
  assert (Hne : nonempty head = true).
  { unfold head. rewrite nonempty_rev. reflexivity. }
  rewrite Hne. cbn [andb].
  destruct (forallb (N.eqb SLASH) head) eqn:Hall; cbn [negb]; [exact Hne|].
  rewrite nonempty_rev. apply dropwhile_not_all.
  rewrite forallb_rev. exact Hall.
Qed.

Lemma startswith_slash_has_slash (s : str) :
  startswith s [SLASH] = true -> existsb (N.eqb SLASH) s = true.
Proof.
  destruct s as [|c s]; [discriminate|]. cbn [startswith existsb].
  intros H. apply andb_true_iff in H as [H _].
  rewrite N.eqb_sym, H. reflexivity.
Qed.

(** X7.  On POSIX, the target path that [main] builds from an absolute
    repository path has a directory name that is not empty, whatever the
    file argument is: [ensure_dir_for_file] always calls
    [os.makedirs]. *)
Theorem target_path_has_a_directory (repo_abs file_arg : str) :
  startswith repo_abs [SLASH] = true ->
  makes_directory (path_join repo_abs file_arg) = true.
Proof.
  intros Habs. apply dirname_of_path_with_slash. unfold path_join.
  destruct (startswith file_arg [SLASH]) eqn:Hf.
  - apply startswith_slash_has_slash. exact Hf.
  - destruct (negb (nonempty repo_abs) || endswith repo_abs [SLASH]);
      rewrite existsb_app, (startswith_slash_has_slash _ Habs); reflexivity.
Qed.

Lemma target_path_has_a_directory_witness :
  makes_directory (path_join (lit "/home/me/repo") (lit "docs/mini-log.md"))
  = true.
Proof.
  apply (target_path_has_a_directory (lit "/home/me/repo")
           (lit "docs/mini-log.md")).
  reflexivity.
Defined.

Example dirname_samples :
  dirname (lit "/home/me/repo/TODO.md") = lit "/home/me/repo"
  /\ dirname (lit "/TODO.md") = lit "/"
  /\ dirname (lit "TODO.md") = []
  /\ dirname (lit "a//b") = lit "a"
  /\ path_join (lit "/r") (lit "/abs/f.md") = lit "/abs/f.md"
  /\ path_join (lit "/r/") (lit "f.md") = lit "/r/f.md".
Proof. repeat split; reflexivity. Qed.

(** ** The delay, for every interval *)

(** X8.  With [--randomize] the delay is at least 10 seconds whatever the
    interval is, zero and negative ones included; without it, an
    interval of zero or less makes the wait do nothing at all: no read
    of the flag, no sleep. *)
Theorem delay_floor_only_with_jitter (args : Namespace) (draw : N) :
  (randomize args = true -> 10 <= compute_delay args draw)
  /\ (randomize args = false -> (interval args <= 0)%Z ->
      forall sig w, wait sig (compute_delay args draw) w = Ok tt w).
Proof.
  split.
  - intros Hr. unfold compute_delay. rewrite Hr.
    apply (py_max_spec 10).
  - intros Hr Hz sig w. rewrite (plain_delay_is_base args draw Hr).
    unfold wait, wait_fuel. cbn [wait_loop].
    assert (Hq : inject_Z (interval args) <= 0).
    { rewrite Zle_Qle in Hz. exact Hz. }
    assert (E : Qlt_bool 0 (inject_Z (interval args)) = false)
      by (apply Qlt_bool_false; exact Hq).
    rewrite E. reflexivity.
Qed.

Lemma delay_floor_only_with_jitter_witness :
  10 <= compute_delay (jitter_args (-3)) 77
  /\ wait None (compute_delay (set_interval 0 defaults) 77) empty_world
     = Ok tt empty_world.
Proof.
  split.
  - apply (proj1 (delay_floor_only_with_jitter (jitter_args (-3)) 77)).
    reflexivity.
  - apply (proj2 (delay_floor_only_with_jitter (set_interval 0 defaults) 77)).
    + reflexivity.
    + cbn. lia.
Defined.

(** ** Templates with text and one timestamp *)

Lemma format_plain_text (t ts : str) :
  plain_text t = true -> format t ts = FOk t.
Proof.
  intros H. unfold format.
  rewrite <- (app_nil_r t) at 1.
  rewrite (format_go_plain_text ts [] t [] H).
  cbn [format_go]. rewrite app_nil_r, rev_involutive. reflexivity.
Qed.

Lemma format_one_timestamp (pre post ts : str) :
  plain_text pre = true -> plain_text post = true ->
  format (pre ++ lit "{ts}" ++ post) ts = FOk (pre ++ ts ++ post).
Proof.
  intros Hpre Hpost. unfold format.
  rewrite (format_go_plain_text ts _ pre [] Hpre).
  change (lit "{ts}" ++ post)
    with (LBRACE :: 116%N :: [115%N] ++ RBRACE :: post).
  cbn [format_go format_step]. rewrite N.eqb_refl.
  cbn [format_go format_step].
  change (N.eqb 116 LBRACE) with false. cbn iota.
  rewrite (field_char_name 116%N [] _ ts eq_refl).
  rewrite (format_go_field ts post [115%N] [116%N] _ eq_refl).
  change (resolve_field (rev [116%N] ++ [115%N]) ts) with (FOk ts).
  cbn iota.
  rewrite <- (app_nil_r post) at 1.
  rewrite (format_go_plain_text ts [] post _ Hpost).
  cbn [format_go]. rewrite app_nil_r.
  rewrite !rev_app_distr, !rev_involutive, <- app_assoc.
  reflexivity.
Qed.

Lemma random_choice_total (pool : list str) (pick : nat) :
  pool <> [] ->
  exists t, random_choice pool pick = inr t /\ In t pool.
Proof.
  intros Hne. unfold random_choice.
  destruct pool as [|x pool]; [congruence|].
  destruct (nth_error (x :: pool) (pick mod List.length (x :: pool))) eqn:E.
  - exists s. split; [reflexivity|]. eapply nth_error_In; eauto.
  - apply nth_error_None in E.
    pose proof (Nat.mod_upper_bound pick (List.length (x :: pool))
                  ltac:(cbn; lia)). lia.
Qed.

(** X9.  Generation with well-formed templates.  When every template of a
    pool that is not empty is text without braces around one [{ts}],
    [generate_entry] never fails: the entry is the bullet or the prefix,
    a space, the template with the time stamp in the place of [{ts}],
    and a newline.  The default pool is such a pool. *)
Theorem well_formed_pool_always_generates
    (pool : list str) (prefix : option str) (now : datetime) (pick : nat) :
  pool <> [] ->
  forallb one_timestamp pool = true ->
  exists templ,
    In templ pool
    /\ random_choice pool pick = inr templ
    /\ generate_entry pool prefix now pick
       = FOk (entry_head prefix ++ [SP] ++ before_field templ
              ++ strftime_utc now ++ after_field templ ++ [NL]).
Proof.
  intros Hne Hall.
  destruct (random_choice_total pool pick Hne) as (templ & Hpick & Hin).
  exists templ. split; [exact Hin|]. split; [exact Hpick|].
  rewrite forallb_forall in Hall. specialize (Hall templ Hin).
  unfold one_timestamp in Hall.
  apply andb_true_iff in Hall as [Hall Hpost].
  apply andb_true_iff in Hall as [Heq Hpre].
  apply str_eqb_eq in Heq.
  unfold generate_entry. rewrite Hpick.
  rewrite Heq at 1.
  rewrite (format_one_timestamp _ _ (strftime_utc now) Hpre Hpost).
  rewrite <- !app_assoc. reflexivity.
Qed.

Lemma default_templates_are_well_formed :
  DEFAULT_TEMPLATES <> [] /\ forallb one_timestamp DEFAULT_TEMPLATES = true.
Proof. split; [discriminate | reflexivity]. Qed.

Lemma well_formed_pool_always_generates_witness :
  exists templ,
    In templ DEFAULT_TEMPLATES
    /\ random_choice DEFAULT_TEMPLATES 2 = inr templ
    /\ generate_entry DEFAULT_TEMPLATES (Some (lit "AUTO")) sample_time 2
       = FOk (entry_head (Some (lit "AUTO")) ++ [SP] ++ before_field templ
              ++ strftime_utc sample_time ++ after_field templ ++ [NL]).
Proof.
  apply (well_formed_pool_always_generates DEFAULT_TEMPLATES
           (Some (lit "AUTO")) sample_time 2%nat).
  - discriminate.
  - reflexivity.
Defined.

(** X10.  A template without braces is copied as it is: the entry has no
    time stamp in it. *)
Theorem template_without_placeholder_is_copied
    (templ : str) (prefix : option str) (now : datetime) (pick : nat) :
  plain_text templ = true ->
  generate_entry [templ] prefix now pick
  = FOk (entry_head prefix ++ [SP] ++ templ ++ [NL]).
Proof.
  intros H. unfold generate_entry, random_choice.
  cbn [List.length]. rewrite Nat.mod_1_r. cbn [nth_error].
  rewrite (format_plain_text _ _ H). reflexivity.
Qed.

Lemma template_without_placeholder_is_copied_witness :
  generate_entry [lit "NOTE: nothing new"] None sample_time 5
  = FOk (entry_head None ++ [SP] ++ lit "NOTE: nothing new" ++ [NL]).
Proof.
  apply (template_without_placeholder_is_copied (lit "NOTE: nothing new")
           None sample_time 5%nat).
  reflexivity.
Defined.

(** ** The file after several passes *)






(** ** Command lines the parser accepts *)

Lemma consume_with_extras :
  forall n toks ns extras ns',
    (List.length toks <= n)%nat ->
    extras <> [] ->
    consume toks ns extras <> Parsed ns'.
Proof.
  induction n as [|n IH]; intros toks ns extras ns' Hlen Hex.
  - destruct toks; [|cbn in Hlen; lia]. cbn.
    destruct extras; [congruence | discriminate].
  - destruct toks as [|[a t] rest].
    + cbn. destruct extras; [congruence | discriminate].
    + cbn [List.length] in Hlen. cbn [consume].
      destruct t as [|[d|] explicit].
      * apply IH; [lia | discriminate].
      * destruct (kind_of d).
        -- destruct explicit as [v|].
           ++ destruct (store d v ns) as [e|[ns1|]]; try discriminate.
              apply IH; [lia | exact Hex].
           ++ destruct rest as [|[v [|? ?]] rest']; try discriminate.
              destruct (store d v ns) as [e|[ns1|]]; try discriminate.
              cbn [List.length] in Hlen. apply IH; [lia | exact Hex].
        -- destruct explicit; [discriminate|].
           apply IH; [lia | exact Hex].
        -- discriminate.
      * apply IH; [lia | discriminate].
Qed.

Lemma consume_knows_its_options :
  forall n toks ns ns' a e,
    (List.length toks <= n)%nat ->
    consume toks ns [] = Parsed ns' ->
    ~ In (a, TOpt None e) toks.
Proof.
  induction n as [|n IH]; intros toks ns ns' a e Hlen H Hin.
  - destruct toks; [contradiction | cbn in Hlen; lia].
  - destruct toks as [|[b t] rest]; [contradiction|].
    cbn [List.length] in Hlen. cbn [consume] in H.
    destruct t as [|[d|] explicit].
    + exact (consume_with_extras (List.length rest) rest ns [b] ns'
               (le_n _) ltac:(discriminate) H).
    + destruct Hin as [Hin | Hin]; [discriminate|].
      destruct (kind_of d).
      * destruct explicit as [v|].
        -- destruct (store d v ns) as [x|[ns1|]]; try discriminate.
           apply (IH rest ns1 ns' a e); [lia | exact H | exact Hin].
        -- destruct rest as [|[v [|? ?]] rest']; try discriminate.
           destruct (store d v ns) as [x|[ns1|]]; try discriminate.
           cbn [List.length] in Hlen.
           destruct Hin as [Hin | Hin]; [discriminate|].
           apply (IH rest' ns1 ns' a e); [lia | exact H | exact Hin].
      * destruct explicit; [discriminate|].
        apply (IH rest (store_true d ns) ns' a e); [lia | exact H | exact Hin].
      * discriminate.
    + exact (consume_with_extras (List.length rest) rest ns [b] ns'
               (le_n _) ltac:(discriminate) H).
Qed.

Lemma classify_all_tokens :
  forall av toks a,
    classify_all av = inr toks ->
    In a av -> exists t, classify a = CTok t /\ In (a, t) toks.
Proof.
  induction av as [|x av IH]; intros toks a H Hin; [contradiction|].
  cbn [classify_all] in H.
  destruct (classify x) as [t | |] eqn:Hx; try discriminate.
  destruct (classify_all av) as [bad | l] eqn:Hl; [discriminate|].
  inversion H; subst toks.
  destruct Hin as [<- | Hin].
  - exists t. split; [exact Hx | left; reflexivity].
  - destruct (IH l a eq_refl Hin) as (t' & Ht' & Hin').
    exists t'. split; [exact Ht' | right; exact Hin'].
Qed.

(** X12.  Unknown options.  A command line that the parser accepts holds no
    argument that reads as an option the parser does not know, at any
    place: any command line with [--no-push] in it is rejected. *)
Theorem accepted_command_line_has_no_unknown_option
    (argv : list str) (ns : Namespace) (a : str) :
  parse_args argv = Parsed ns ->
  In a argv ->
  unknown_option a = false.
Proof.
  unfold parse_args. intros H Hin.
  destruct (classify_all argv) as [[| |] | toks] eqn:Hc; try discriminate.
  destruct (classify_all_tokens argv toks a Hc Hin) as (t & Ht & Hin').
  unfold unknown_option. rewrite Ht.
  destruct t as [|[d|] e]; try reflexivity.
  exfalso.
  exact (consume_knows_its_options (List.length toks) toks defaults ns a e
           (le_n _) H Hin').
Qed.

Lemma accepted_command_line_has_no_unknown_option_witness :
  unknown_option (lit "1800") = false.
Proof.
  apply (accepted_command_line_has_no_unknown_option
           [lit "--interval"; lit "1800"; lit "--no-verify"]
           (set_no_verify true (set_interval 1800 defaults)) (lit "1800")).
  - reflexivity.
  - right. left. reflexivity.
Defined.

Example no_push_is_an_unknown_option :
  unknown_option (lit "--no-push") = true
  /\ unknown_option (lit "--push") = false
  /\ unknown_option (lit "--verbose") = true.
Proof. repeat split; reflexivity. Qed.

(** X13.  How the push can be turned off.  On an accepted command line
    [args.push] is true unless the push option was given the empty
    string as its value: that is the only way to run without pushing. *)
Theorem push_disabled_only_by_empty_value (argv : list str) (ns : Namespace) :
  parse_args argv = Parsed ns ->
  truthy (push ns) = false ->
  push ns = PyStr [].
Proof.
  intros Hp Ht. pose proof (push_never_False argv ns Hp) as Hn.
  destruct (push ns) as [[|] | [|c s]]; cbn in Ht; try discriminate;
    [congruence | reflexivity].
Qed.

Lemma push_disabled_only_by_empty_value_witness :
  push (set_push (PyStr []) defaults) = PyStr [].
Proof.
  apply (push_disabled_only_by_empty_value [lit "--push"; []]
           (set_push (PyStr []) defaults)).
  - reflexivity.
  - reflexivity.
Defined.

(** ** The branch *)

Lemma switch_branch_cases (args : Namespace) (p1 p2 : proc) (w : world) :
  switch_branch args p1 p2 w
  = match branch args with
    | None => Ok tt w
    | Some b =>
        if negb (nonempty b) then Ok tt w
        else
          let w1 := record (Subprocess [lit "git"; lit "checkout"; b]) w in
          let again := [lit "git"; lit "checkout"; lit "-b"; b] in
          let w2 := record (Subprocess again) w1 in
          if negb (started p1) then Raise OSError w1
          else if succeeded p1 then Ok tt w1
          else if negb (started p2) then Raise OSError w2
          else if succeeded p2 then Ok tt w2
          else Raise (RuntimeError again) w2
    end.
Proof.
  unfold switch_branch.
  destruct (branch args) as [b|]; [|reflexivity].
  destruct (nonempty b); [|reflexivity]. cbn [negb]. cbv zeta.
  unfold try_except, bind, run_cmd, emit, raise, ret, started, succeeded.
  destruct p1 as [c1|]; cbn; [|reflexivity].
  destruct (returncode c1 =? 0)%Z; cbn; [reflexivity|].
  destruct p2 as [c2|]; cbn; [|reflexivity].
  destruct (returncode c2 =? 0)%Z; reflexivity.
Qed.



(** Loading the templates runs no git command and leaves the target
    file alone. *)
Lemma load_templates_quiet (args : Namespace) (r : read_result) (w : world) :
  exists pool w',
    load_templates args r w = Ok pool w'
    /\ target w' = target w
    /\ git_commands (trace w') = git_commands (trace w).
Proof.
  unfold load_templates.
  destruct (templates_file args) as [path|]; [|unfold ret; eauto].
  destruct (nonempty path); [|unfold ret; eauto].
  destruct r as [text | f].
  - unfold try_except, bind, open_read, ret.
    destruct (usable_lines text); eauto.
  - unfold try_except, bind, open_read, raise, print, emit, ret.
    assert (He : is_Exception (exn_of_fault f) = true)
      by (destruct f; reflexivity).
    rewrite He. cbn beta iota. do 2 eexists.
    split; [reflexivity|]. split; [reflexivity|].
    cbn [trace record]. rewrite git_commands_app. apply app_nil_r.
Qed.

(** The startup after the command line is parsed and the repository is
    found. *)
Lemma startup_in_repository (E : env) (args : Namespace) :
  parse_args (argv E) = Parsed args ->
  repo_ok (rev_parse E) = true ->
  exists pool w2,
    target w2 = target0 E
    /\ git_commands (trace w2)
       = [[lit "git"; lit "rev-parse"; lit "--is-inside-work-tree"]]
    /\ startup E (initial_world E)
       = (ensure_dir_for_file (makedirs_ok E) ;;;
          create_if_missing (create_ok E) ;;;
          switch_branch args (checkout E) (checkout_b E) ;;;
          print (Banner args) ;;;
          ret (args, pool)) w2.
Proof.
  intros Hparse Hrepo.
  destruct (load_templates_quiet args (templates_read E)
              (record (Subprocess [lit "git"; lit "rev-parse";
                                   lit "--is-inside-work-tree"])
                      (initial_world E)))
    as (pool & w2 & Hload & Htgt & Hgit).
  exists pool, w2. split; [exact Htgt|]. split; [exact Hgit|].
  unfold startup. unfold bind at 1. unfold parse_args_or_exit.
  rewrite Hparse. unfold ret at 1. unfold bind at 1.
  rewrite is_git_repo_eq, Hrepo.
  cbn [negb]. unfold bind at 1. rewrite Hload. reflexivity.
Qed.

(** The target file after [create_if_missing]. *)
Lemma create_if_missing_ok (w : world) :
  exists w',
    create_if_missing true w = Ok tt w'
    /\ target w'
       = Some (match target w with Some old => old | None => HEADER end)
    /\ git_commands (trace w') = git_commands (trace w).
Proof.
  unfold create_if_missing. destruct (target w) as [old|] eqn:Ht.
  - exists w. auto.
  - eexists. split; [reflexivity|]. split; [reflexivity|].
    cbn [trace record created]. rewrite git_commands_app. apply app_nil_r.
Qed.

(** X15.  A branch that can be neither checked out nor created.  The run
    ends with the uncaught [RuntimeError] of [git checkout -b], before
    the loop and before any entry; by then the target file exists (it is
    created, with its header, before the branch is handled). *)
Theorem branch_failure_comes_after_file_creation
    (E : env) (args : Namespace) (b : str) (n : nat) :
  parse_args (argv E) = Parsed args ->
  repo_ok (rev_parse E) = true ->
  makedirs_ok E = true ->
  create_ok E = true ->
  branch args = Some b ->
  nonempty b = true ->
  started (checkout E) = true -> succeeded (checkout E) = false ->
  started (checkout_b E) = true -> succeeded (checkout_b E) = false ->
  exists w,
    main E n
    = Ended (Uncaught (RuntimeError [lit "git"; lit "checkout"; lit "-b"; b])) w
    /\ target w
       = Some (match target0 E with Some old => old | None => HEADER end)
    /\ git_commands (trace w)
       = [ [lit "git"; lit "rev-parse"; lit "--is-inside-work-tree"];
           [lit "git"; lit "checkout"; b];
           [lit "git"; lit "checkout"; lit "-b"; b] ].
Proof.
  intros Hparse Hrepo Hmk Hcr Hb Hne Hs1 Hf1 Hs2 Hf2.
  destruct (startup_in_repository E args Hparse Hrepo)
    as (pool & w2 & Htgt & Htr & Hstart).
  unfold main. rewrite Hstart.
  unfold bind at 1. unfold ensure_dir_for_file, bind at 1, emit.
  rewrite Hmk. unfold ret at 1. unfold bind at 1. rewrite Hcr.
  destruct (create_if_missing_ok (record Makedirs w2))
    as (w4 & Hc & Ht4 & Hg4).
  rewrite Hc. cbn [target record] in Ht4. rewrite Htgt in Ht4.
  cbn [trace record] in Hg4. rewrite git_commands_app in Hg4.
  cbn [git_commands] in Hg4. rewrite app_nil_r, Htr in Hg4.
  unfold bind at 1. rewrite switch_branch_cases, Hb, Hne. cbn [negb]. cbv zeta.
  rewrite Hs1, Hf1, Hs2, Hf2. cbn [negb].
  eexists. split; [reflexivity|]. split.
  - cbn [target record]. exact Ht4.
  - cbn [trace record]. rewrite !git_commands_app, Hg4. reflexivity.
Qed.

Lemma branch_failure_comes_after_file_creation_witness :
  exists w,
    main stuck_branch_env 2
    = Ended (Uncaught (RuntimeError [lit "git"; lit "checkout"; lit "-b";
                                     lit "auto"])) w
    /\ target w
       = Some (match target0 stuck_branch_env with
               | Some old => old
               | None => HEADER
               end)
    /\ git_commands (trace w)
       = [ [lit "git"; lit "rev-parse"; lit "--is-inside-work-tree"];
           [lit "git"; lit "checkout"; lit "auto"];
           [lit "git"; lit "checkout"; lit "-b"; lit "auto"] ].
Proof.
  apply (branch_failure_comes_after_file_creation stuck_branch_env
           (set_branch (Some (lit "auto")) defaults) (lit "auto") 2);
    reflexivity.
Defined.

(** ** How the process ends *)


Lemma run_exit (E : env) :
  forall n s c w,
    run n E s = Ended (ExitStatus c) w ->
    c = 0%Z
    /\ flag_at (sigint E) (clock w) = true
    /\ exists tr, trace w = tr ++ [Poll true; Stdout ExitedCleanly].
Proof.
  induction n as [|n IH]; intros s c w H; cbn [run] in H; [discriminate|].
  destruct (loop_step_cases E s) as [(w' & Hs & _) | [(Hs & Hflag) | Hs]];
    rewrite Hs in H.
  - eapply IH; eauto.
  - inversion H; subst. split; [reflexivity|]. split; [exact Hflag|].
    exists (trace (ls_world s)). cbn [trace record].
    rewrite <- app_assoc. reflexivity.
  - discriminate.
Qed.



(** ** SIGINT ends the loop *)

(** The wait either sees the stop flag or lasts the whole delay. *)
Lemma wait_loop_progress (sig : option Q) (delay : Q) :
  forall fuel slept w,
    (0 < fuel)%nat ->
    delay - slept + 1 <= inject_Z (Z.of_nat fuel) ->
    exists w',
      wait_loop fuel sig delay slept w = Ok tt w'
      /\ clock w <= clock w'
      /\ (flag_at sig (clock w') = true
          \/ clock w + (delay - slept) <= clock w').
Proof.
  induction fuel as [|fuel IH]; intros slept w Hpos Hfuel; [lia|].
  cbn [wait_loop].
  destruct (Qlt_bool slept delay) eqn:Hlt.
  - apply Qlt_bool_true in Hlt.
    unfold bind at 1. unfold stop_signal_received.
    destruct (flag_at sig (clock w)) eqn:Hflag.
    + eexists. unfold ret. split; [reflexivity|].
      cbn [clock record]. split; [lra|]. left. exact Hflag.
    + destruct (py_min_spec 1 (delay - slept)) as (Hm1 & Hm2 & Hm3).
      set (d := py_min 1 (delay - slept)) in *.
      assert (Hd : 0 < d) by (destruct Hm3 as [E | E]; rewrite E; lra).
      unfold bind at 1. unfold sleep.
      assert (Hnn : Qlt_bool d 0 = false) by (apply Qlt_bool_false; lra).
      rewrite Hnn.
      rewrite inject_Z_succ in Hfuel.
      set (w2 := record (Sleep d) (later d (record (Poll false) w))) in *.
      destruct (IH (slept + 1) w2) as (w' & Hrun & Hclk & Hend).
      { apply inject_Z_nat_pos. lra. }
      { lra. }
      exists w'. unfold w2 in *. cbn [clock record later] in *.
      split; [exact Hrun|]. split; [lra|].
      destruct Hend as [Hend | Hend]; [left; exact Hend|].
      right. destruct Hm3 as [E | E]; rewrite E in *; lra.
  - apply Qlt_bool_false in Hlt.
    exists w. unfold ret. split; [reflexivity|]. split; [lra|].
    right. lra.
Qed.

Lemma wait_progress (sig : option Q) (delay : Q) (w : world) :
  exists w',
    wait sig delay w = Ok tt w'
    /\ (flag_at sig (clock w') = true \/ clock w + delay <= clock w').
Proof.
  destruct (wait_fuel_enough delay) as [Hpos Hfuel].
  destruct (wait_loop_progress sig delay (wait_fuel delay) 0 w Hpos Hfuel)
    as (w' & H1 & _ & H2).
  exists w'. split; [exact H1|].
  destruct H2 as [H2 | H2]; [left; exact H2 | right; lra].
Qed.

Lemma at_work_clock (ce : cycle_env) (w : world) :
  clock w <= clock (at_work ce w).
Proof.
  unfold at_work. cbn [clock later].
  assert (0 <= Z.of_N (ce_work_ms ce) # 1000).
  { unfold Qle. cbn [Qnum Qden]. lia. }
  lra.
Qed.

(** The clock does not go back in the work phase. *)
Lemma work_phase_clock (args : Namespace) (templates : list str)
    (ce : cycle_env) (w : world) :
  match work_phase args templates ce w with
  | Ok _ w1 => clock w <= clock w1
  | Raise _ w1 => clock w <= clock w1
  | Beyond _ => True
  end.
Proof.
  rewrite work_phase_unfold. pose proof (at_work_clock ce w) as Hw.
  destruct (generate_entry templates (prefix args) (ce_utc_entry ce)
              (ce_pick ce)); [|exact Hw|exact I].
  destruct (ce_append_ok ce); [|exact Hw].
  match goal with |- match commit_and_report ?a ?c ?x with _ => _ end =>
    pose proof (commit_and_report_spec a c x) as Hc;
    destruct (commit_and_report a c x) end.
  - destruct Hc as [Hc _]. rewrite Hc. exact Hw.
  - destruct Hc as [_ [Hc _]]. rewrite Hc. exact Hw.
  - exact I.
Qed.

(** A pass whose delay is a second or more either ends with the stop
    flag set or lasts a second or more. *)
Lemma cycle_progress (args : Namespace) (templates : list str)
    (sig : option Q) (ce : cycle_env) (w w' : world) :
  1 <= compute_delay args (ce_draw ce) ->
  cycle args templates sig ce w = Ok tt w' ->
  flag_at sig (clock w') = true \/ clock w + 1 <= clock w'.
Proof.
  intros Hd. pose proof (work_phase_clock args templates ce w) as Hclk.
  destruct (work_phase args templates ce w) as [o w1 | e w1 | g] eqn:H.
  - rewrite (cycle_after_work _ _ _ _ _ _ _ H).
    destruct (wait_progress sig (compute_delay args (ce_draw ce)) w1)
      as (w2 & Hw & Hend).
    rewrite Hw. intros E. inversion E; subst w2.
    destruct Hend as [Hend | Hend]; [left; exact Hend | right; lra].
  - rewrite (cycle_after_raise _ _ _ _ _ _ _ H).
    destruct (backoff_spec sig 5 (record (Stderr (ErrorInLoop e)) w1))
      as (w2 & tr & k & Hb & _ & _ & _ & _ & _ & Hk & Hc & _ & Hset).
    rewrite Hb. intros E. inversion E; subst w2.
    cbn [clock record] in *.
    destruct (Nat.eq_dec k 5) as [-> | Hne].
    + right. change (inject_Z (Z.of_nat 5)) with 5 in Hc. lra.
    + left. rewrite <- (Hset ltac:(lia)). apply flag_at_compat. exact Hc.
  - unfold cycle, try_except, cycle_body. unfold bind at 1.
    rewrite H. discriminate.
Qed.

Lemma delay_at_least_a_second (args : Namespace) (draw : N) :
  randomize args = true \/ (1 <= interval args)%Z ->
  1 <= compute_delay args draw.
Proof.
  intros [Hr | Hi].
  - unfold compute_delay. rewrite Hr.
    match goal with |- _ <= py_max 10 ?d =>
      pose proof (py_max_spec 10 d) as (H & _) end.
    lra.
  - unfold compute_delay. destruct (randomize args).
    + match goal with |- _ <= py_max 10 ?d =>
        pose proof (py_max_spec 10 d) as (H & _) end.
      lra.
    + rewrite Zle_Qle in Hi. exact Hi.
Qed.

Lemma run_stops (E : env) (t : Q) :
  sigint E = Some t ->
  forall m s,
    (randomize (ls_args s) = true \/ (1 <= interval (ls_args s))%Z) ->
    (forall i,
       generate_entry (ls_templates s) (prefix (ls_args s))
         (ce_utc_entry (cycles E i)) (ce_pick (cycles E i)) <> FBeyond) ->
    t - clock (ls_world s) <= inject_Z (Z.of_nat m) ->
    exists w, run (S m) E s = Ended (ExitStatus 0) w.
Proof.
  intros Hsig.
  induction m as [|m IH]; intros s Hdelay Hgen Hm.
  - cbn [run]. unfold loop_step, stop_signal_received.
    assert (Hflag : flag_at (sigint E) (clock (ls_world s)) = true).
    { rewrite Hsig. apply flag_at_true.
      change (inject_Z (Z.of_nat 0)) with 0 in Hm. lra. }
    rewrite Hflag. eexists. reflexivity.
  - change (run (S (S m)) E s)
      with (match loop_step E s with
            | Running s' => run (S m) E s'
            | ended => ended
            end).
    destruct (loop_step_cases E s) as [(w' & Hs & Hflag & Hc) | [(Hs & _) | Hs]].
    + rewrite Hs. apply IH.
      * exact Hdelay.
      * exact Hgen.
      * cbn [ls_world].
        apply cycle_progress in Hc;
          [|apply delay_at_least_a_second; exact Hdelay].
        rewrite inject_Z_succ in Hm.
        destruct Hc as [Hc | Hc].
        -- rewrite Hsig in Hc. apply flag_at_true in Hc.
           assert (0 <= inject_Z (Z.of_nat m)).
           { rewrite <- (Zle_Qle 0). lia. }
           lra.
        -- cbn [clock record] in Hc. lra.
    + rewrite Hs. eexists. reflexivity.
    + exfalso. unfold loop_step, stop_signal_received in Hs.
      destruct (flag_at (sigint E) (clock (ls_world s))); [discriminate|].
      unfold cycle, try_except, cycle_body in Hs. unfold bind at 1 in Hs.
      pose proof (work_phase_unfold (ls_args s) (ls_templates s)
                    (cycles E (ls_cycle s))
                    (record (Poll false) (ls_world s))) as Hw.
      destruct (cycle_total (ls_args s) (ls_templates s) (sigint E)
                  (cycles E (ls_cycle s)) (record (Poll false) (ls_world s)))
        as [[w' Hc] | Hc].
      * unfold cycle, try_except, cycle_body in Hc. unfold bind at 1 in Hc.
        rewrite Hc in Hs. discriminate.
      * clear Hs. unfold cycle, try_except, cycle_body in Hc.
        unfold bind at 1 in Hc.
        destruct (work_phase (ls_args s) (ls_templates s)
                    (cycles E (ls_cycle s))
                    (record (Poll false) (ls_world s)))
          as [o w1 | e w1 | g] eqn:Hwp.
        -- destruct (wait_progress (sigint E)
                       (compute_delay (ls_args s)
                          (ce_draw (cycles E (ls_cycle s)))) w1)
             as (w2 & Hwt & _).
           rewrite Hwt in Hc. discriminate.
        -- pose proof (work_phase_raise _ _ _ _ _ _ Hwp) as He.
           rewrite He in Hc.
           destruct (backoff_spec (sigint E) 5
                       (record (Stderr (ErrorInLoop e)) w1))
             as (w2 & tr & k & Hb & _).
           unfold on_error, bind, print_err, emit in Hc.
           rewrite Hb in Hc. discriminate.
        -- specialize (Hgen (ls_cycle s)).
           destruct (generate_entry (ls_templates s) (prefix (ls_args s))
                       (ce_utc_entry (cycles E (ls_cycle s)))
                       (ce_pick (cycles E (ls_cycle s)))); try discriminate.
           ++ destruct (ce_append_ok (cycles E (ls_cycle s)));
                [|discriminate].
              match type of Hw with _ = commit_and_report ?a ?c ?x =>
                pose proof (commit_and_report_spec a c x) as Hcr;
                destruct (commit_and_report a c x) end;
                try discriminate. contradiction.
           ++ congruence.
Qed.

(** X17.  SIGINT ends the run.  When SIGINT arrives at time [t] and every
    pass waits a second or more (with [--randomize], or with an interval
    of at least 1), the loop is left after at most one pass for every
    second up to [t], and one test more: the process prints
    [Exited cleanly.] right after the read of the stop flag that found
    it set, and exits with status 0.  No failure of a pass prevents
    it. *)
Theorem sigint_ends_the_run (E : env) (t : Q) (m : nat) (s : loop_state) :
  sigint E = Some t ->
  (randomize (ls_args s) = true \/ (1 <= interval (ls_args s))%Z) ->
  (forall i,
     generate_entry (ls_templates s) (prefix (ls_args s))
       (ce_utc_entry (cycles E i)) (ce_pick (cycles E i)) <> FBeyond) ->
  t - clock (ls_world s) <= inject_Z (Z.of_nat m) ->
  exists w tr,
    run (S m) E s = Ended (ExitStatus 0) w
    /\ trace w = tr ++ [Poll true; Stdout ExitedCleanly]
    /\ t <= clock w.
Proof.
  intros Hsig Hdelay Hgen Hm.
  destruct (run_stops E t Hsig m s Hdelay Hgen Hm) as [w Hrun].
  destruct (run_exit E _ _ _ _ Hrun) as (_ & Hflag & tr & Htr).
  exists w, tr. split; [exact Hrun|]. split; [exact Htr|].
  rewrite Hsig in Hflag. apply flag_at_true. exact Hflag.
Qed.

Lemma sigint_ends_the_run_witness :
  exists w tr,
    run 4 (interrupted_env [] read_only_cycle 3) (sample_state empty_world)
    = Ended (ExitStatus 0) w
    /\ trace w = tr ++ [Poll true; Stdout ExitedCleanly]
    /\ 3 <= clock w.
Proof.
  apply (sigint_ends_the_run (interrupted_env [] read_only_cycle 3) 3 3
           (sample_state empty_world)).
  - reflexivity.
  - right. vm_compute. discriminate.
  - intros i. vm_compute. discriminate.
  - vm_compute. discriminate.
Defined.
